(** * sosso: drift correction and the synchronous read/write test loop

    A shallow embedding of [sosso/Correction.hpp] and of [TestRun.hpp]
    (class [sosso::TestRun]), with the properties of the loop driver and of
    the correction filter that the specification states about them.

    Conventions of the embedding

    - [std::int64_t] values are integers of [Z].  Signed overflow and
      division by zero are undefined behaviour in C++; the arithmetic
      operators of the embedding are checked and return [None] there, so a
      function that runs into undefined behaviour has no result.
    - [unsigned] values are naturals of [N]; arithmetic on them wraps
      around modulo [2^32], which the embedding writes out.
    - The device layer ([DoubleBuffer<ReadChannel>],
      [DoubleBuffer<WriteChannel>]) and the [FrameClock] are not part of
      the embedded sources.  The driver is embedded over an arbitrary
      implementation of their interface ([Channel.ops], [FrameClock.ops]). *)

From Stdlib Require Import ZArith NArith List Bool Lia String.
From Stdlib Require Import Sorting.Sorted.
Import ListNotations.

Local Open Scope Z_scope.

(** ** Machine integers *)

Module Int64.

Definition min_int : Z := - 2 ^ 63.
Definition max_int : Z := 2 ^ 63 - 1.

Definition in_range (z : Z) : bool := (min_int <=? z) && (z <=? max_int).

Definition representable (z : Z) : Prop := min_int <= z <= max_int.

(** The result of a signed operation: the mathematical value when it is
    representable, no result otherwise. *)
Definition checked (z : Z) : option Z :=
  if in_range z then Some z else None.

Definition add (a b : Z) : option Z := checked (a + b).
Definition sub (a b : Z) : option Z := checked (a - b).
Definition neg (a : Z) : option Z := checked (- a).

(** [a / b] of C++: truncation toward zero. *)
Definition div (a b : Z) : option Z :=
  if b =? 0 then None else checked (Z.quot a b).

(** [a % b] of C++: the remainder of the truncating division; undefined
    when the quotient is not representable. *)
Definition rem (a b : Z) : option Z :=
  if b =? 0 then None
  else if in_range (Z.quot a b) then Some (Z.rem a b) else None.

End Int64.

Module UInt32.

Definition modulus : N := (2 ^ 32)%N.

(** Unsigned arithmetic wraps around. *)
Definition wrap (n : N) : N := (n mod modulus)%N.
Definition add (a b : N) : N := wrap (a + b).
Definition mul (a b : N) : N := wrap (a * b).

End UInt32.

(** A tiny option monad for the checked arithmetic. *)
Definition obind {A B} (m : option A) (k : A -> option B) : option B :=
  match m with Some a => k a | None => None end.

Declare Scope opt_scope.
Delimit Scope opt_scope with opt.
Notation "x <-? m ; k" := (obind m (fun x => k))
  (at level 61, m at next level, right associativity) : opt_scope.

(** ** Correction.hpp *)

Record Correction : Type := mkCorrection {
  _loss_max : Z;        (* Threshold for rigorous correction. *)
  _drift_max : Z;       (* Threshold for small drift correction. *)
  _correction : Z;      (* Correction parameter. *)
  _average_offset : Z   (* Moving average of balance offset. *)
}.

(** [Correction() = default]: the member initializers. *)
Definition Correction_default : Correction :=
  {| _loss_max := 128; _drift_max := 64; _correction := 0; _average_offset := 0 |}.

Definition set_drift_limit (c : Correction) (drift_max : N) : Correction :=
  {| _loss_max := _loss_max c; _drift_max := Z.of_N drift_max;
     _correction := _correction c; _average_offset := _average_offset c |}.

Definition set_loss_limit (c : Correction) (loss_max : N) : Correction :=
  {| _loss_max := Z.of_N loss_max; _drift_max := _drift_max c;
     _correction := _correction c; _average_offset := _average_offset c |}.

Definition correction (c : Correction) : Z := _correction c.

Definition clear (c : Correction) : Correction :=
  {| _loss_max := _loss_max c; _drift_max := _drift_max c;
     _correction := 0; _average_offset := _average_offset c |}.

(** [std::int64_t correct(std::int64_t balance, std::int64_t target = 0)].
    Returns the value returned by the method and the updated object. *)
Definition correct (c : Correction) (balance target : Z) : option (Z * Correction) :=
  (offset <-? Int64.sub target balance;
   sum <-? Int64.add (_average_offset c) offset;
   average <-? Int64.div sum 2;
   diff <-? Int64.sub offset (_correction c);
   neg_loss <-? Int64.neg (_loss_max c);
   if (diff <? neg_loss) || (_loss_max c <? diff) then
     (* Large discrepance, rigorous correction. *)
     Some (offset,
           {| _loss_max := _loss_max c; _drift_max := _drift_max c;
              _correction := offset; _average_offset := average |})
   else
     (* Correct by a few frames if average offset exceeds drift threshold. *)
     (delta <-? Int64.sub average (_correction c);
      divisor <-? Int64.add (_drift_max c) 1;
      step <-? Int64.div delta divisor;
      corrected <-? Int64.add (_correction c) step;
      Some (corrected,
            {| _loss_max := _loss_max c; _drift_max := _drift_max c;
               _correction := corrected; _average_offset := average |})))%opt.

(** The call [correct(balance)] with the default target. *)
Definition correct0 (c : Correction) (balance : Z) : option (Z * Correction) :=
  correct c balance 0.


(** Iterated use of the filter, as the loop driver makes of it: one call per
    completed period.  [corrections] feeds a sequence of balances with the
    default target and collects the returned values. *)
Fixpoint corrections (c : Correction) (balances : list Z) : option (list Z) :=
  match balances with
  | [] => Some []
  | b :: bs =>
      (r <-? correct0 c b;
       rest <-? corrections (snd r) bs;
       Some (fst r :: rest))%opt
  end.

(** [n] calls of [correct(b, b)] in a row. *)
Fixpoint correct_repeat (n : nat) (c : Correction) (b : Z) : option Correction :=
  match n with
  | O => Some c
  | S n' => (r <-? correct c b b; correct_repeat n' (snd r) b)%opt
  end.

(** ** The interface of the device layer

    [TestRun] owns a [DoubleBuffer<ReadChannel> _in], a
    [DoubleBuffer<WriteChannel> _out] and a [FrameClock _clock].  Their
    classes are outside the embedded sources, so the driver is embedded over
    any implementation of the methods it calls.  All three objects live in
    one world [W] (the two channels may well share a kernel device);
    methods that only observe are functions of the world, methods that act
    return the new world. *)

Inductive channel : Type := ChIn | ChOut.

(** [Buffer(data, length)]: a non-owning view; the driver only ever builds
    views of a whole period, so the length is what tells them apart. *)
Record Buffer : Type := mkBuffer { buffer_length : N }.

Module Channel.
Record ops (W : Type) : Type := {
  recording : channel -> W -> bool;
  playback : channel -> W -> bool;
  can_memory_map : channel -> W -> bool;
  memory_map : channel -> W -> bool * W;
  memory_unmap : channel -> W -> bool * W;
  sample_rate : channel -> W -> N;
  stepping : channel -> W -> N;
  frame_size : channel -> W -> N;
  add_to_sync_group : channel -> Z -> W -> bool * W;
  start_sync_group : channel -> Z -> W -> bool * W;
  set_buffer : channel -> Buffer -> Z -> W -> bool * W;
  finished : channel -> Z -> W -> bool;
  take_buffer : channel -> W -> Buffer * W;
  balance : channel -> W -> Z;
  period_end : channel -> W -> Z;
  end_frames : channel -> W -> Z;
  wakeup_time : channel -> Z -> W -> Z;
  process : channel -> Z -> W -> bool * W;
  reset_buffers : channel -> Z -> W -> W;
  close : channel -> W -> W
}.
Arguments recording {W} _.
Arguments playback {W} _.
Arguments can_memory_map {W} _.
Arguments memory_map {W} _.
Arguments memory_unmap {W} _.
Arguments sample_rate {W} _.
Arguments stepping {W} _.
Arguments frame_size {W} _.
Arguments add_to_sync_group {W} _.
Arguments start_sync_group {W} _.
Arguments set_buffer {W} _.
Arguments finished {W} _.
Arguments take_buffer {W} _.
Arguments balance {W} _.
Arguments period_end {W} _.
Arguments end_frames {W} _.
Arguments wakeup_time {W} _.
Arguments process {W} _.
Arguments reset_buffers {W} _.
Arguments close {W} _.
End Channel.

Module FrameClock.
Record ops (W : Type) : Type := {
  init_clock : N -> W -> bool * W;
  now : W -> (bool * Z) * W;     (* [bool now(std::int64_t &)] *)
  sleep : Z -> W -> bool * W
}.
Arguments init_clock {W} _.
Arguments now {W} _.
Arguments sleep {W} _.
End FrameClock.

(** What the driver does to the outside, in the order it does it.  The list
    is kept by the embedding next to the object, newest entry first.  A log
    call is recorded with its format string; its arguments are evaluated
    but not recorded. *)
Inductive event : Type :=
| Warn (message : string)
| Info (message : string)
| MemoryMap (c : channel)
| MemoryUnmap (c : channel)
| SetBuffer (c : channel) (b : Buffer) (end_frames : Z)
| TakeBuffer (c : channel)
| AddToSyncGroup (c : channel) (id : Z)
| StartSyncGroup (c : channel) (id : Z)
| InitClock (sample_rate : N)
| Process (c : channel) (sync_frames : Z)
| LogState (c : channel) (sync_frames : Z)
| ClockSleep (deadline : Z)
| ClockNow
| ResetBuffers (c : channel) (end_frames : Z)
| Close (c : channel).

(** ** TestRun.hpp *)

Module TestRun.

Section Driver.

Context {W : Type}.
Variable chan : Channel.ops W.
Variable clock : FrameClock.ops W.

(** The data members, the world the device members live in, and the
    record of calls. *)
Record t : Type := mk {
  world : W;                     (* _clock, _out, _in *)
  _sync_frames : Z;
  _gap : Z;
  _out_correction : Correction;
  _in_correction : Correction;
  calls : list event
}.

(** A freshly constructed object. *)
Definition create (w : W) : t :=
  {| world := w; _sync_frames := 0; _gap := 0;
     _out_correction := Correction_default;
     _in_correction := Correction_default; calls := [] |}.

(** State passing with undefined behaviour: [None] when the execution
    has none. *)
Definition M (A : Type) : Type := t -> option (A * t).

Definition ret {A} (a : A) : M A := fun s => Some (a, s).

Definition bind {A B} (m : M A) (k : A -> M B) : M B :=
  fun s => match m s with
           | Some (a, s') => k a s'
           | None => None
           end.

(** Checked arithmetic (and the filter) inside the driver. *)
Definition int64 {A} (o : option A) : M A :=
  fun s => match o with Some z => Some (z, s) | None => None end.

Definition emit (e : event) : M unit :=
  fun s => Some (tt, {| world := world s; _sync_frames := _sync_frames s;
                        _gap := _gap s;
                        _out_correction := _out_correction s;
                        _in_correction := _in_correction s;
                        calls := e :: calls s |}).

(** A method that observes. *)
Definition query {A} (f : W -> A) : M A := fun s => Some (f (world s), s).

(** A method that acts; the call is recorded. *)
Definition call {A} (e : event) (f : W -> A * W) : M A :=
  fun s => let (a, w) := f (world s) in
           Some (a, {| world := w; _sync_frames := _sync_frames s;
                       _gap := _gap s;
                       _out_correction := _out_correction s;
                       _in_correction := _in_correction s;
                       calls := e :: calls s |}).

Definition sync_frames : M Z := fun s => Some (_sync_frames s, s).
Definition gap : M Z := fun s => Some (_gap s, s).

Definition set_sync_frames (v : Z) : M unit :=
  fun s => Some (tt, {| world := world s; _sync_frames := v; _gap := _gap s;
                        _out_correction := _out_correction s;
                        _in_correction := _in_correction s;
                        calls := calls s |}).

Definition set_gap (v : Z) : M unit :=
  fun s => Some (tt, {| world := world s; _sync_frames := _sync_frames s;
                        _gap := v;
                        _out_correction := _out_correction s;
                        _in_correction := _in_correction s;
                        calls := calls s |}).

Definition get_correction (c : channel) : M Correction :=
  fun s => Some (match c with
                 | ChIn => _in_correction s
                 | ChOut => _out_correction s
                 end, s).

Definition set_correction (c : channel) (v : Correction) : M unit :=
  fun s => Some (tt, {| world := world s; _sync_frames := _sync_frames s;
                        _gap := _gap s;
                        _out_correction :=
                          match c with ChIn => _out_correction s | ChOut => v end;
                        _in_correction :=
                          match c with ChIn => v | ChOut => _in_correction s end;
                        calls := calls s |}).


Notation "x <- m ;; k" := (bind m (fun x => k))
  (at level 61, m at next level, right associativity).
Notation "m ;; k" := (bind m (fun _ => k))
  (at level 61, right associativity).

(** The locals of [read_write] that live across loop iterations. *)
Record locals : Type := mkLocals {
  in_buffer_data : N;         (* [in_buffer_data.size()] *)
  in_frames : Z;
  out_buffer_data : N;        (* [out_buffer_data.size()] *)
  out_frames : Z;
  finished : N                (* [unsigned finished] *)
}.

Definition buffer_data (c : channel) (l : locals) : N :=
  match c with ChIn => in_buffer_data l | ChOut => out_buffer_data l end.

Definition frames_of (c : channel) (l : locals) : Z :=
  match c with ChIn => in_frames l | ChOut => out_frames l end.

Definition set_frames (c : channel) (v : Z) (l : locals) : locals :=
  match c with
  | ChIn => {| in_buffer_data := in_buffer_data l; in_frames := v;
               out_buffer_data := out_buffer_data l;
               out_frames := out_frames l; finished := finished l |}
  | ChOut => {| in_buffer_data := in_buffer_data l; in_frames := in_frames l;
                out_buffer_data := out_buffer_data l;
                out_frames := v; finished := finished l |}
  end.

(** [++finished] *)
Definition increment_finished (l : locals) : locals :=
  {| in_buffer_data := in_buffer_data l; in_frames := in_frames l;
     out_buffer_data := out_buffer_data l; out_frames := out_frames l;
     finished := UInt32.add (finished l) 1 |}.

(** [void close()] *)
Definition close : M unit :=
  call (Close ChOut) (fun w => (tt, Channel.close chan ChOut w)) ;;
  call (Close ChIn) (fun w => (tt, Channel.close chan ChIn w)).

(** [bool process()], lines 162-175. *)
Definition process : M bool :=
  sync <- sync_frames ;;
  wake_in <- query (Channel.wakeup_time chan ChIn sync) ;;
  failed_in <- (if wake_in <=? sync then
                  ok <- call (Process ChIn sync) (Channel.process chan ChIn sync) ;;
                  ret (negb ok)
                else ret false) ;;
  if failed_in then ret false
  else
    wake_out <- query (Channel.wakeup_time chan ChOut sync) ;;
    failed_out <- (if wake_out <=? sync then
                     ok <- call (Process ChOut sync) (Channel.process chan ChOut sync) ;;
                     ret (negb ok)
                   else ret false) ;;
    if failed_out then ret false
    else
      emit (LogState ChIn sync) ;;
      emit (LogState ChOut sync) ;;
      ret true.

(** [bool sleep()], lines 179-192: sleep until the next step. *)
Definition sleep_until_wakeup : M bool :=
  sync <- sync_frames ;;
  wake_in <- query (Channel.wakeup_time chan ChIn sync) ;;
  wake_out <- query (Channel.wakeup_time chan ChOut sync) ;;
  let wakeup := Z.min wake_in wake_out in
  if sync <? wakeup then
    block <- int64 (Int64.div sync 1024) ;;
    index <- int64 (Int64.rem block 8) ;;
    sim_delay <- (if index =? 7 then
                    emit (Warn "Simulate late wakeup by %lld.") ;;
                    ret (8 * 1024)
                  else ret 0) ;;
    deadline <- int64 (Int64.add wakeup sim_delay) ;;
    ok <- call (ClockSleep deadline) (FrameClock.sleep clock deadline) ;;
    if negb ok then ret false
    else set_sync_frames wakeup ;; ret true
  else ret true.

(** [bool sleep()], lines 193-205: check the wakeup time and correct the
    current frame time if we are late. *)
Definition sleep_check_wakeup : M bool :=
  r <- call ClockNow (FrameClock.now clock) ;;
  let (ok, now) := (r : bool * Z) in
  if negb ok then ret false
  else
    sync <- sync_frames ;;
    sync_diff <- int64 (Int64.sub now sync) ;;
    step <- query (Channel.stepping chan ChIn) ;;
    (if Z.of_N step <? sync_diff then
       remainder <- int64 (Int64.rem sync_diff (Z.of_N step)) ;;
       rounded <- int64 (Int64.sub sync_diff remainder) ;;
       emit (Info "Wakeup time is %lld late, correct by %lld") ;;
       advanced <- int64 (Int64.add sync rounded) ;;
       set_sync_frames advanced
     else ret tt) ;;
    ret true.

(** [bool sleep()], lines 206-213: the gap to the period ends. *)
Definition sleep_gap : M unit :=
  sync <- sync_frames ;;
  end_in <- query (Channel.period_end chan ChIn) ;;
  behind_in <- int64 (Int64.sub sync end_in) ;;
  set_gap (Z.max 0 behind_in) ;;
  g <- gap ;;
  end_out <- query (Channel.period_end chan ChOut) ;;
  behind_out <- int64 (Int64.sub sync end_out) ;;
  set_gap (Z.max g behind_out) ;;
  g <- gap ;;
  if 1024 <? g then
    frames_in <- query (Channel.end_frames chan ChIn) ;;
    reset_in <- int64 (Int64.add frames_in g) ;;
    call (ResetBuffers ChIn reset_in)
         (fun w => (tt, Channel.reset_buffers chan ChIn reset_in w)) ;;
    frames_out <- query (Channel.end_frames chan ChOut) ;;
    reset_out <- int64 (Int64.add frames_out g) ;;
    call (ResetBuffers ChOut reset_out)
         (fun w => (tt, Channel.reset_buffers chan ChOut reset_out w))
  else set_gap 0.

(** [bool sleep()], lines 179-205: up to the corrected frame time. *)
Definition sleep_to_now : M bool :=
  slept <- sleep_until_wakeup ;;
  if negb slept then ret false
  else sleep_check_wakeup.

(** [bool sleep()], lines 177-215. *)
Definition sleep : M bool :=
  awake <- sleep_to_now ;;
  if negb awake then ret false
  else sleep_gap ;; ret true.


(** [memory_map && c.can_memory_map() && !c.memory_map()], the condition
    of lines 55 and 59, evaluated left to right. *)
Definition memory_map_failed (memory_map : bool) (c : channel) : M bool :=
  if memory_map then
    can <- query (Channel.can_memory_map chan c) ;;
    if can then
      ok <- call (MemoryMap c) (Channel.memory_map chan c) ;;
      ret (negb ok)
    else ret false
  else ret false.

(** [read_write], lines 47-62: modes and memory mapping. *)
Definition check_devices (memory_map : bool) : M bool :=
  rec <- query (Channel.recording chan ChIn) ;;
  if negb rec then
    emit (Warn "In device not in recording mode.") ;; ret false
  else
    play <- query (Channel.playback chan ChOut) ;;
    if negb play then
      emit (Warn "Out device not in playback mode.") ;; ret false
    else
      failed_in <- memory_map_failed memory_map ChIn ;;
      if failed_in then
        emit (Warn "In device not memory mapped.") ;; ret false
      else
        failed_out <- memory_map_failed memory_map ChOut ;;
        if failed_out then
          emit (Warn "Out device not memory mapped.") ;; ret false
        else ret true.

(** [read_write], lines 67-73 for [_in] and 74-80 for [_out]: the buffer
    data of one period, enqueued twice, for the first and the second
    period.  Returns the size of the data and the last end position. *)
Definition prepare_channel (c : channel) (period : N) : M (N * Z) :=
  size <- query (Channel.frame_size chan c) ;;
  let data := UInt32.mul period size in
  let frames := Z.of_N period in
  call (SetBuffer c (mkBuffer data) frames)
       (Channel.set_buffer chan c (mkBuffer data) frames) ;;
  frames <- int64 (Int64.add frames (Z.of_N period)) ;;
  call (SetBuffer c (mkBuffer data) frames)
       (Channel.set_buffer chan c (mkBuffer data) frames) ;;
  ret (data, frames).

Definition prepare_buffers (period : N) : M locals :=
  emit (Info "Period of %u is %lld ns.") ;;
  i <- prepare_channel ChIn period ;;
  o <- prepare_channel ChOut period ;;
  ret {| in_buffer_data := fst i; in_frames := snd i;
         out_buffer_data := fst o; out_frames := snd o;
         finished := 0 |}.

(** [read_write], lines 81-89.  The first comparison has [_out] on both
    sides, as the source has it. *)
Definition check_rates : M bool :=
  step_left <- query (Channel.stepping chan ChOut) ;;
  step_right <- query (Channel.stepping chan ChOut) ;;
  rate_in <- query (Channel.sample_rate chan ChIn) ;;
  rate_out <- query (Channel.sample_rate chan ChOut) ;;
  if negb (step_left =? step_right)%N || negb (rate_in =? rate_out)%N then
    emit (Warn "Recording sample rate %u vs playback %u.") ;; ret false
  else
    emit (Info "Step of %u is %lld ns.") ;; ret true.

(** [read_write], lines 90-105: correction parameters, synchronous start
    and the clock. *)
Definition start_channels : M bool :=
  c_in <- get_correction ChIn ;;
  set_correction ChIn (set_drift_limit c_in 64) ;;
  c_out <- get_correction ChOut ;;
  set_correction ChOut (set_drift_limit c_out 64) ;;
  let sync_group_id := 0 in
  added_in <- call (AddToSyncGroup ChIn sync_group_id)
                   (Channel.add_to_sync_group chan ChIn sync_group_id) ;;
  if negb added_in then ret false
  else
    added_out <- call (AddToSyncGroup ChOut sync_group_id)
                      (Channel.add_to_sync_group chan ChOut sync_group_id) ;;
    if negb added_out then ret false
    else
      started <- call (StartSyncGroup ChIn sync_group_id)
                      (Channel.start_sync_group chan ChIn sync_group_id) ;;
      if negb started then ret false
      else
        rate <- query (Channel.sample_rate chan ChIn) ;;
        call (InitClock rate) (FrameClock.init_clock clock rate).

Definition finished_message (c : channel) : string :=
  match c with
  | ChIn => "In period finished at %lld frames %lld bal %lld correct %lld."
  | ChOut => "Out period finished at %lld frames %lld bal %lld correct %lld."
  end.

(** [read_write], lines 112-128 for [_in] and 129-145 for [_out] (the
    same text with the channel, its correction and its frame counter
    swapped): a completed period is taken and enqueued again. *)
Definition period_finished (c : channel) (period : N) (l : locals) : M locals :=
  sync <- sync_frames ;;
  done <- query (Channel.finished chan c sync) ;;
  if done then
    bal <- query (Channel.balance chan c) ;;
    filter <- get_correction c ;;
    corrected <- int64 (correct0 filter bal) ;;
    set_correction c (snd corrected) ;;
    scheduled <- int64 (Int64.add sync (Z.of_N period)) ;;
    (if negb (scheduled =? frames_of c l) then
       early <- int64 (Int64.sub (frames_of c l) (Z.of_N period)) ;;
       late <- int64 (Int64.sub early sync) ;;
       emit (Info (finished_message c))
     else ret tt) ;;
    call (TakeBuffer c) (Channel.take_buffer chan c) ;;
    frames <- int64 (Int64.add (frames_of c l) (Z.of_N period)) ;;
    filter <- get_correction c ;;
    end_frames <- int64 (Int64.add frames (correction filter)) ;;
    call (SetBuffer c (mkBuffer (buffer_data c l)) end_frames)
         (Channel.set_buffer chan c (mkBuffer (buffer_data c l)) end_frames) ;;
    ret (increment_finished (set_frames c frames l))
  else ret l.

(** [read_write], lines 149-154. *)
Definition shift_by_gap (l : locals) : M locals :=
  g <- gap ;;
  if 0 <? g then
    emit (Warn "Gap of %lld frames, reset period.") ;;
    shifted_in <- int64 (Int64.add (in_frames l) g) ;;
    shifted_out <- int64 (Int64.add (out_frames l) g) ;;
    set_gap 0 ;;
    ret {| in_buffer_data := in_buffer_data l; in_frames := shifted_in;
           out_buffer_data := out_buffer_data l; out_frames := shifted_out;
           finished := finished l |}
  else ret l.

(** One pass through the body of the loop, lines 109-154: [Some false]
    when the body returns false, [None] when it runs to its end. *)
Definition loop_body (period : N) (l : locals) : M (option bool * locals) :=
  ok <- process ;;
  if negb ok then ret (Some false, l)
  else
    l <- period_finished ChIn period l ;;
    l <- period_finished ChOut period l ;;
    ok <- sleep ;;
    if negb ok then ret (Some false, l)
    else
      l <- shift_by_gap l ;;
      ret (None, l).

(** [while (repetitions > finished) { ... }], lines 108-155.  The loop
    need not end (the channels may never finish a period), so the
    embedding counts iterations: the result is [None] when [fuel]
    iterations did not end the loop, [Some false] when the body returned
    false and [Some true] when the condition failed. *)
Fixpoint read_write_loop (fuel : nat) (period repetitions : N) (l : locals)
  : M (option bool * locals) :=
  if (finished l <? repetitions)%N then
    match fuel with
    | O => ret (None, l)
    | S fuel' =>
        r <- loop_body period l ;;
        match fst r with
        | Some b => ret (Some b, snd r)
        | None => read_write_loop fuel' period repetitions (snd r)
        end
    end
  else ret (Some true, l).

(** [read_write], lines 47-80, everything before the rates are compared:
    [None] when a check fails and the method returns false, the locals
    otherwise. *)
Definition startup (period : N) (memory_map : bool) : M (option locals) :=
  ok <- check_devices memory_map ;;
  if negb ok then ret None
  else l <- prepare_buffers period ;; ret (Some l).

(** [bool read_write(unsigned period, unsigned repetitions,
                     bool memory_map = true)], lines 45-159; [None] when the
    loop has not ended after [fuel] iterations. *)
Definition read_write (fuel : nat) (period repetitions : N) (memory_map : bool)
  : M (option bool) :=
  started <- startup period memory_map ;;
  match started with
  | None => ret (Some false)
  | Some l =>
      ok <- check_rates ;;
      if negb ok then ret (Some false)
      else
        ok <- start_channels ;;
        if negb ok then ret (Some false)
        else
          r <- read_write_loop fuel period repetitions l ;;
          match fst r with
          | Some true =>
              call (MemoryUnmap ChIn) (Channel.memory_unmap chan ChIn) ;;
              call (MemoryUnmap ChOut) (Channel.memory_unmap chan ChOut) ;;
              ret (Some true)
          | other => ret other
          end
  end.

End Driver.
End TestRun.

(** ** An ideal device

    The classes of the device layer are not among the embedded sources.
    To run the driver on concrete inputs, this module implements their
    interface the way the specification describes [DoubleBuffer] and
    [FrameClock], for a device without jitter: a channel holds at most two
    slots and transfers the front slot as soon as [process] is called at or
    after its end position, and the clock sleeps exactly until the
    deadline. *)

Module Ideal.

Record channel_state : Type := mkChannel {
  records : bool;                 (* opened for recording *)
  plays : bool;                   (* opened for playback *)
  mappable : bool;                (* advertises memory mapping *)
  map_succeeds : bool;            (* whether mapping then works *)
  mapped : bool;
  rate : N;
  bytes_per_frame : N;
  slots : list (Buffer * Z);      (* front slot first *)
  front_done : bool;              (* front slot completely transferred *)
  ahead : Z                       (* frames ahead of the clock *)
}.

Record world : Type := mkWorld {
  reader : channel_state;
  writer : channel_state;
  time : Z                        (* frames since the clock's origin *)
}.

Definition get (c : channel) (w : world) : channel_state :=
  match c with ChIn => reader w | ChOut => writer w end.

Definition put (c : channel) (s : channel_state) (w : world) : world :=
  match c with
  | ChIn => {| reader := s; writer := writer w; time := time w |}
  | ChOut => {| reader := reader w; writer := s; time := time w |}
  end.

Definition with_slots (q : list (Buffer * Z)) (d : bool) (s : channel_state)
  : channel_state :=
  {| records := records s; plays := plays s; mappable := mappable s;
     map_succeeds := map_succeeds s; mapped := mapped s; rate := rate s;
     bytes_per_frame := bytes_per_frame s;
     slots := q; front_done := d; ahead := ahead s |}.

Definition with_mapped (m : bool) (s : channel_state) : channel_state :=
  {| records := records s; plays := plays s; mappable := mappable s;
     map_succeeds := map_succeeds s; mapped := m; rate := rate s;
     bytes_per_frame := bytes_per_frame s;
     slots := slots s; front_done := front_done s; ahead := ahead s |}.

Definition with_mappable (m : bool) (s : channel_state) : channel_state :=
  {| records := records s; plays := plays s; mappable := m;
     map_succeeds := map_succeeds s; mapped := mapped s; rate := rate s;
     bytes_per_frame := bytes_per_frame s;
     slots := slots s; front_done := front_done s; ahead := ahead s |}.

Definition last_end (q : list (Buffer * Z)) : Z :=
  match rev q with (_, e) :: _ => e | [] => 0 end.

(** Modelled from the spec: the device classes are missing.  The table of
    the channel operations gives the stepping as 16 frames at 48 kHz and
    below, 32 at 96 kHz and 64 at 192 kHz, which is also the comment of
    line 81 of [TestRun.hpp]; a rate between two of these takes the step
    of the next one. *)
Definition stepping_of_rate (sample_rate : N) : N :=
  if (sample_rate <=? 48000)%N then 16%N
  else if (sample_rate <=? 96000)%N then 32%N
  else 64%N.

(** Modelled from the spec: [DoubleBuffer.hpp], [Channel.hpp],
    [ReadChannel.hpp] and [WriteChannel.hpp] are missing.  The methods
    follow the specification's section on [DoubleBuffer]: [set_buffer]
    enqueues and fails when both slots are occupied, [finished] holds when
    the front slot's end position is reached and its frames are
    transferred, [take_buffer] dequeues the front slot and promotes the
    back slot, [period_end] and [end_frames] are the end position of the
    last queued slot, [wakeup_time] is the end position of the front slot,
    and [reset_buffers] enqueues both slots again, at the new end position
    and one period later.  [stepping] is determined by the sample rate. *)
Definition channels : Channel.ops world := {|
  Channel.recording := fun c w => records (get c w);
  Channel.playback := fun c w => plays (get c w);
  Channel.can_memory_map := fun c w => mappable (get c w);
  Channel.memory_map := fun c w =>
    if map_succeeds (get c w) then (true, put c (with_mapped true (get c w)) w)
    else (false, w);
  Channel.memory_unmap := fun c w =>
    (mapped (get c w), put c (with_mapped false (get c w)) w);
  Channel.sample_rate := fun c w => rate (get c w);
  Channel.stepping := fun c w => stepping_of_rate (rate (get c w));
  Channel.frame_size := fun c w => bytes_per_frame (get c w);
  Channel.add_to_sync_group := fun c id w => (true, w);
  Channel.start_sync_group := fun c id w => (true, w);
  (* enqueue; fails if both slots are occupied *)
  Channel.set_buffer := fun c b e w =>
    let s := get c w in
    match slots s with
    | _ :: _ :: _ => (false, w)
    | q => (true, put c (with_slots (q ++ [(b, e)]) (front_done s) s) w)
    end;
  (* front slot's end position reached and all its frames transferred *)
  Channel.finished := fun c sync w =>
    match slots (get c w) with
    | (_, e) :: _ => (e <=? sync) && front_done (get c w)
    | [] => false
    end;
  (* dequeue the front slot, promote the back slot *)
  Channel.take_buffer := fun c w =>
    match slots (get c w) with
    | (b, _) :: q => (b, put c (with_slots q false (get c w)) w)
    | [] => (mkBuffer 0, w)
    end;
  Channel.balance := fun c w => ahead (get c w);
  Channel.period_end := fun c w => last_end (slots (get c w));
  Channel.end_frames := fun c w => last_end (slots (get c w));
  Channel.wakeup_time := fun c sync w =>
    match slots (get c w) with
    | (_, e) :: _ => e
    | [] => sync
    end;
  Channel.process := fun c sync w =>
    let s := get c w in
    match slots s with
    | (_, e) :: _ =>
        (true, put c (with_slots (slots s) (front_done s || (e <=? sync)) s) w)
    | [] => (true, w)
    end;
  (* both slots again, at the new end position and one period later *)
  Channel.reset_buffers := fun c e w =>
    let s := get c w in
    match slots s with
    | (b, _) :: _ =>
        let period := Z.of_N (buffer_length b / bytes_per_frame s) in
        put c (with_slots [(b, e); (b, e + period)] false s) w
    | [] => w
    end;
  Channel.close := fun c w => put c (with_slots [] false (with_mapped false (get c w))) w
|}.

(** Modelled from the spec: [FrameClock.hpp] is missing.  [init_clock]
    sets the origin, so that [now] is 0 at that instant; [sleep] returns
    when the deadline is reached; time never goes back. *)
Definition frame_clock : FrameClock.ops world := {|
  FrameClock.init_clock := fun rate w =>
    (true, {| reader := reader w; writer := writer w; time := 0 |});
  FrameClock.now := fun w => ((true, time w), w);
  FrameClock.sleep := fun deadline w =>
    (true, {| reader := reader w; writer := writer w;
              time := Z.max (time w) deadline |})
|}.

(** A stereo 16 bit channel, not yet started. *)
Definition channel_at (recording : bool) (sample_rate : N) : channel_state :=
  {| records := recording; plays := negb recording; mappable := true;
     map_succeeds := true; mapped := false; rate := sample_rate;
     bytes_per_frame := 4; slots := []; front_done := false;
     ahead := 0 |}.

(** Recording and playback at 48 kHz. *)
Definition duplex_48k : world :=
  {| reader := channel_at true 48000; writer := channel_at false 48000;
     time := 0 |}.

(** Recording at 44.1 kHz, playback at 48 kHz. *)
Definition mismatched_rates : world :=
  {| reader := channel_at true 44100; writer := channel_at false 48000;
     time := 0 |}.


(** Neither channel advertises memory mapping. *)
Definition unmappable : world :=
  {| reader := with_mappable false (channel_at true 48000);
     writer := with_mappable false (channel_at false 48000);
     time := 0 |}.

Definition read_write := TestRun.read_write channels frame_clock.

(** The object and the device, 7168 frames into a run with periods of
    1024 frames: both channels wait for the period that ends at 8192. *)
Definition queued (s : channel_state) : channel_state :=
  with_slots [(mkBuffer 4096, 8192); (mkBuffer 4096, 9216)] false s.

Definition block7 : @TestRun.t world :=
  {| TestRun.world :=
       {| reader := queued (channel_at true 48000);
          writer := queued (channel_at false 48000);
          time := 7168 |};
     TestRun._sync_frames := 7168; TestRun._gap := 0;
     TestRun._out_correction := Correction_default;
     TestRun._in_correction := Correction_default;
     TestRun.calls := [] |}.

(** The state a step of the driver leaves, for steps that have one. *)
Definition after {A} (m : @TestRun.M world A) (s : @TestRun.t world)
  : @TestRun.t world :=
  match m s with Some (_, s') => s' | None => s end.

Definition block7_slept : @TestRun.t world :=
  after (TestRun.sleep_until_wakeup channels frame_clock) block7.

Definition block7_awake : @TestRun.t world :=
  after (TestRun.sleep channels frame_clock) block7.

Definition block7_locals : TestRun.locals :=
  {| TestRun.in_buffer_data := 4096; TestRun.in_frames := 9216;
     TestRun.out_buffer_data := 4096; TestRun.out_frames := 9216;
     TestRun.finished := 12 |}.

Definition block7_locals_passed : TestRun.locals :=
  match TestRun.loop_body channels frame_clock 1024 block7_locals block7 with
  | Some ((_, l), _) => l
  | None => block7_locals
  end.

Definition block7_passed : @TestRun.t world :=
  after (TestRun.loop_body channels frame_clock 1024 block7_locals) block7.

Definition ran (repetitions : N) : @TestRun.t world :=
  after (read_write 100 1024 repetitions true) (TestRun.create duplex_48k).

(** Both channels opened for playback. *)
Definition playback_only : world :=
  {| reader := channel_at false 48000; writer := channel_at false 48000;
     time := 0 |}.

(** Both channels opened for recording. *)
Definition recording_only : world :=
  {| reader := channel_at true 48000; writer := channel_at true 48000;
     time := 0 |}.

Definition block7_checked : @TestRun.t world :=
  after (TestRun.sleep_check_wakeup channels frame_clock) block7_slept.

End Ideal.

(** ** The filter in the specification's words

    The four steps of [correct] as the specification gives them, over the
    integers: the offset, the moving average with a division that truncates
    toward zero, the rigorous step when the offset is further than
    [loss_max] from the correction, the gentle step otherwise. *)
Definition correct_spec (c : Correction) (balance target : Z) : Z * Correction :=
  let offset := target - balance in
  let average := Z.quot (_average_offset c + offset) 2 in
  let corrected :=
    if _loss_max c <? Z.abs (offset - _correction c) then offset
    else _correction c + Z.quot (average - _correction c) (_drift_max c + 1) in
  (corrected,
   {| _loss_max := _loss_max c; _drift_max := _drift_max c;
      _correction := corrected; _average_offset := average |}).

(** [a / b] rounded up, for positive [b]. *)
Definition ceil_div (a b : Z) : Z := (a + b - 1) / b.

(** Every value of a run of the filter is either a gentle step away from the
    value before it (at most [step] frames), or the rigorous step to the
    offset [0 - balance], taken when that offset is further than [loss] from
    the value before. *)
Fixpoint gentle_or_rigorous (loss step previous : Z) (balances values : list Z)
  : Prop :=
  match balances, values with
  | [], [] => True
  | b :: bs, v :: vs =>
      (Z.abs (v - previous) <= step
       \/ (loss < Z.abs (0 - b - previous) /\ v = 0 - b))
      /\ gentle_or_rigorous loss step v bs vs
  | _, _ => False
  end.

(** The state of the filter after the balances [-128] and [-128]. *)
Definition drifted : Correction :=
  {| _loss_max := 128; _drift_max := 64; _correction := 1; _average_offset := 96 |}.

(** ** What the record of calls shows *)

(** The frame times the driver passed to the channels. *)
Definition observed_sync (e : event) : list Z :=
  match e with
  | Process _ sync => [sync]
  | LogState _ sync => [sync]
  | _ => []
  end.

Definition observed (calls : list event) : list Z :=
  flat_map observed_sync calls.

(** The frame times of a run never go back: from the current one through
    the record of calls (newest first) down to the 0 of a new object they
    only fall. *)
Definition ordered {W} (s : TestRun.t (W:=W)) : Prop :=
  StronglySorted Z.ge
    (TestRun._sync_frames s :: observed (TestRun.calls s) ++ [0]).

(** A step of the driver that keeps the frame times in order. *)
Definition advances {W} (s s' : TestRun.t (W:=W)) : Prop :=
  TestRun._sync_frames s <= TestRun._sync_frames s'
  /\ (ordered s -> ordered s').

(** The buffers handed to the channels. *)
Definition is_set_buffer (e : event) : bool :=
  match e with SetBuffer _ _ _ => true | _ => false end.

Definition enqueued (calls : list event) : list event :=
  filter is_set_buffer calls.

(** The periods completed, on either channel. *)
Definition is_take_buffer (e : event) : bool :=
  match e with TakeBuffer _ => true | _ => false end.

Definition completions (calls : list event) : N :=
  N.of_nat (List.length (filter is_take_buffer calls)).

(** The object after a call that acts on the world. *)
Definition called {W} (e : event) (w : W) (s : TestRun.t (W:=W)) : TestRun.t :=
  {| TestRun.world := w; TestRun._sync_frames := TestRun._sync_frames s;
     TestRun._gap := TestRun._gap s;
     TestRun._out_correction := TestRun._out_correction s;
     TestRun._in_correction := TestRun._in_correction s;
     TestRun.calls := e :: TestRun.calls s |}.

(** A step of the driver that takes no buffer. *)
Definition takes_none {W} (s s' : TestRun.t (W:=W)) : Prop :=
  completions (TestRun.calls s') = completions (TestRun.calls s).

(** [max(0, sync_frames - read.period_end(), sync_frames - write.period_end())] *)
Definition gap_behind (sync_frames end_in end_out : Z) : Z :=
  Z.max (Z.max 0 (sync_frames - end_in)) (sync_frames - end_out).

(** The simulated delay of the test harness: [8 * 1024] frames in every
    block of 1024 frames whose number is 7 modulo 8. *)
Definition simulated_delay (sync_frames : Z) : Z :=
  if (sync_frames / 1024) mod 8 =? 7 then 8 * 1024 else 0.

(** [std::min(_in.wakeup_time(_sync_frames), _out.wakeup_time(_sync_frames))] *)
Definition next_wakeup {W} (chan : Channel.ops W) (s : TestRun.t (W:=W)) : Z :=
  Z.min (Channel.wakeup_time chan ChIn (TestRun._sync_frames s) (TestRun.world s))
        (Channel.wakeup_time chan ChOut (TestRun._sync_frames s) (TestRun.world s)).

(** Frame counts far from the ends of the 64 bit range. *)
Definition moderate (z : Z) : Prop := Z.abs z <= 2 ^ 61.

(** A device whose positions and clock are moderate and whose recording
    channel has a stepping. *)
Definition moderate_device {W} (chan : Channel.ops W) (clock : FrameClock.ops W)
  : Prop :=
  (forall c z w, moderate (Channel.wakeup_time chan c z w))
  /\ (forall c w, moderate (Channel.period_end chan c w))
  /\ (forall c w, moderate (Channel.end_frames chan c w))
  /\ (forall w, moderate (snd (fst (FrameClock.now clock w))))
  /\ (forall w, Channel.stepping chan ChIn w <> 0%N).

(** The thresholds of a default-constructed filter. *)
Definition default_thresholds (c : Correction) : Prop :=
  _loss_max c = 128 /\ _drift_max c = 64.

(** A state whose numbers are 64 bit values; the least of them cannot be
    negated and is left out for the correction. *)
Definition settled_range (c : Correction) : Prop :=
  Int64.min_int < _correction c <= Int64.max_int
  /\ Int64.representable (_average_offset c).

(** Balances of at most [bound] frames in either direction. *)
Definition balances_within (bound : Z) (balances : list Z) : Prop :=
  Forall (fun b => Z.abs b <= bound) balances.


(** The locals after lines 151 and 152. *)
Definition shifted (g : Z) (l : TestRun.locals) : TestRun.locals :=
  {| TestRun.in_buffer_data := TestRun.in_buffer_data l;
     TestRun.in_frames := TestRun.in_frames l + g;
     TestRun.out_buffer_data := TestRun.out_buffer_data l;
     TestRun.out_frames := TestRun.out_frames l + g;
     TestRun.finished := TestRun.finished l |}.

(** The object after lines 150 and 153. *)
Definition gap_cleared {W} (s : TestRun.t (W:=W)) : TestRun.t :=
  {| TestRun.world := TestRun.world s;
     TestRun._sync_frames := TestRun._sync_frames s;
     TestRun._gap := 0;
     TestRun._out_correction := TestRun._out_correction s;
     TestRun._in_correction := TestRun._in_correction s;
     TestRun.calls := Warn "Gap of %lld frames, reset period." :: TestRun.calls s |}.

(** ** Further notions for the driver *)

(** The calls that end the use of a channel. *)
Definition is_teardown (e : event) : bool :=
  match e with
  | MemoryUnmap _ => true
  | Close _ => true
  | _ => false
  end.

Definition teardown (calls : list event) : list event :=
  filter is_teardown calls.

Definition same_channel (a b : channel) : bool :=
  match a, b with
  | ChIn, ChIn => true
  | ChOut, ChOut => true
  | _, _ => false
  end.

(** What a call does to the number of buffers channel [c] has been
    handed and not been asked back. *)
Definition slot_change (c : channel) (e : event) : Z :=
  match e with
  | SetBuffer c' _ _ => if same_channel c c' then 1 else 0
  | TakeBuffer c' => if same_channel c c' then -1 else 0
  | _ => 0
  end.

(** The buffers handed to channel [c] and not taken back, over the
    record of calls (newest first). *)
Fixpoint in_flight (c : channel) (calls : list event) : Z :=
  match calls with
  | [] => 0
  | e :: earlier => slot_change c e + in_flight c earlier
  end.

(** At no point of the record had channel [c] more than [bound] buffers
    of the driver. *)
Fixpoint never_above (c : channel) (bound : Z) (calls : list event) : Prop :=
  match calls with
  | [] => True
  | e :: earlier =>
      slot_change c e + in_flight c earlier <= bound
      /\ never_above c bound earlier
  end.

(** A step of the driver after which channel [c] holds as many buffers
    as before and never held more in between. *)
Definition keeps_slots {W} (c : channel) (s s' : TestRun.t (W:=W)) : Prop :=
  in_flight c (TestRun.calls s') = in_flight c (TestRun.calls s)
  /\ forall bound,
       in_flight c (TestRun.calls s) <= bound ->
       never_above c bound (TestRun.calls s) ->
       never_above c bound (TestRun.calls s').

(** A step of the driver that neither unmaps nor closes a channel. *)
Definition keeps_open {W} (s s' : TestRun.t (W:=W)) : Prop :=
  teardown (TestRun.calls s') = teardown (TestRun.calls s).

(** A step of the driver that leaves a gap of 0 at 0. *)
Definition keeps_no_gap {W} (s s' : TestRun.t (W:=W)) : Prop :=
  TestRun._gap s = 0 -> TestRun._gap s' = 0.

(** The object after the two calls of lines 156 and 157. *)
Definition unmapped {W} (chan : Channel.ops W) (s : TestRun.t (W:=W)) : TestRun.t :=
  let w := snd (Channel.memory_unmap chan ChIn (TestRun.world s)) in
  called (MemoryUnmap ChOut) (snd (Channel.memory_unmap chan ChOut w))
         (called (MemoryUnmap ChIn) w s).

(** The buffers taken back from channel [c], over the record of calls. *)
Fixpoint taken (c : channel) (calls : list event) : Z :=
  match calls with
  | [] => 0
  | TakeBuffer c' :: earlier =>
      (if same_channel c c' then 1 else 0) + taken c earlier
  | _ :: earlier => taken c earlier
  end.

(** How far the frame counter of the recording channel is ahead of the
    one of the playback channel, less the periods it has completed
    more. *)
Definition lead (period : N) (l : TestRun.locals) (calls : list event) : Z :=
  TestRun.in_frames l - TestRun.out_frames l
  - Z.of_N period * (taken ChIn calls - taken ChOut calls).

(** A step of the driver that takes no buffer from either channel. *)
Definition keeps_taken {W} (s s' : TestRun.t (W:=W)) : Prop :=
  forall c, taken c (TestRun.calls s') = taken c (TestRun.calls s).



(** The calls that only a started duplex stream takes: processing the
    channels, taking and resetting their buffers, and asking the clock. *)
Definition is_running_call (e : event) : bool :=
  match e with
  | Process _ _ => true
  | TakeBuffer _ => true
  | ResetBuffers _ _ => true
  | ClockSleep _ => true
  | ClockNow => true
  | _ => false
  end.

(** A step of the driver that only adds to the record of calls. *)
Definition adds_calls {W} (s s' : TestRun.t (W:=W)) : Prop :=
  exists later, TestRun.calls s' = later ++ TestRun.calls s.

(** A step of the driver that adds no call of a started stream. *)
Definition not_running {W} (s s' : TestRun.t (W:=W)) : Prop :=
  exists added,
    TestRun.calls s' = added ++ TestRun.calls s
    /\ filter is_running_call added = [].

(** ** Further notions for the filter *)

(** Thresholds as the setters can store them. *)
Definition setter_thresholds (c : Correction) : Prop :=
  0 <= _loss_max c < 2 ^ 32 /\ 0 <= _drift_max c < 2 ^ 32.

(** Both frame counts of the filter lie between [lo] and [hi]. *)
Definition within (lo hi : Z) (c : Correction) : Prop :=
  lo <= _correction c <= hi /\ lo <= _average_offset c <= hi.

(** The mirrored filter: the same thresholds, the opposite frame counts. *)
Definition mirrored (c : Correction) : Correction :=
  {| _loss_max := _loss_max c; _drift_max := _drift_max c;
     _correction := - _correction c; _average_offset := - _average_offset c |}.

(** * Properties *)

(** ** Checked arithmetic *)

Section Int64Facts.

Lemma in_range_iff z :
  Int64.in_range z = true <-> Int64.min_int <= z <= Int64.max_int.
Proof. unfold Int64.in_range. rewrite andb_true_iff, !Z.leb_le. tauto. Qed.

Lemma checked_Some z r :
  Int64.checked z = Some r -> r = z /\ Int64.min_int <= z <= Int64.max_int.
Proof.
  unfold Int64.checked. destruct (Int64.in_range z) eqn:E; [|discriminate].
  intros [= <-]. now apply in_range_iff in E.
Qed.

Lemma checked_in z :
  Int64.min_int <= z <= Int64.max_int -> Int64.checked z = Some z.
Proof.
  intros H. unfold Int64.checked.
  now rewrite (proj2 (in_range_iff z) H).
Qed.

Lemma add_Some a b r :
  Int64.add a b = Some r ->
  r = a + b /\ Int64.min_int <= a + b <= Int64.max_int.
Proof. apply checked_Some. Qed.

Lemma sub_Some a b r :
  Int64.sub a b = Some r ->
  r = a - b /\ Int64.min_int <= a - b <= Int64.max_int.
Proof. apply checked_Some. Qed.

Lemma neg_Some a r :
  Int64.neg a = Some r -> r = - a /\ Int64.min_int <= - a <= Int64.max_int.
Proof. apply checked_Some. Qed.

Lemma div_Some a b r :
  Int64.div a b = Some r ->
  r = Z.quot a b /\ b <> 0 /\ Int64.min_int <= Z.quot a b <= Int64.max_int.
Proof.
  unfold Int64.div. destruct (Z.eqb_spec b 0); [discriminate|].
  intros H. apply checked_Some in H. tauto.
Qed.

Lemma rem_Some a b r : Int64.rem a b = Some r -> r = Z.rem a b /\ b <> 0.
Proof.
  unfold Int64.rem. destruct (Z.eqb_spec b 0); [discriminate|].
  destruct (Int64.in_range (Z.quot a b)); [|discriminate].
  intros [= <-]. auto.
Qed.

Lemma add_in a b :
  Int64.min_int <= a + b <= Int64.max_int -> Int64.add a b = Some (a + b).
Proof. apply checked_in. Qed.

Lemma sub_in a b :
  Int64.min_int <= a - b <= Int64.max_int -> Int64.sub a b = Some (a - b).
Proof. apply checked_in. Qed.

Lemma neg_in a :
  Int64.min_int <= - a <= Int64.max_int -> Int64.neg a = Some (- a).
Proof. apply checked_in. Qed.

Lemma div_in a b :
  b <> 0 -> Int64.min_int <= Z.quot a b <= Int64.max_int ->
  Int64.div a b = Some (Z.quot a b).
Proof.
  intros Hb H. unfold Int64.div.
  destruct (Z.eqb_spec b 0); [contradiction|]. now apply checked_in.
Qed.

(** Truncating division by a positive number, as a quotient and a
    remainder that has the sign of the dividend. *)
Lemma quot_pos_spec a b :
  0 < b ->
  exists r, a = b * Z.quot a b + r /\ Z.abs r < b
            /\ (0 <= a -> 0 <= r) /\ (a <= 0 -> r <= 0).
Proof.
  intros Hb. exists (Z.rem a b).
  split; [apply Z.quot_rem'|].
  split; [|split].
  - pose proof (Z.rem_bound_abs a b ltac:(lia)). lia.
  - intros Ha. apply Z.rem_nonneg; lia.
  - intros Ha. apply Z.rem_nonpos; lia.
Qed.

Lemma quot_pos_bound a b m :
  0 < b -> - m <= a <= m -> - m <= Z.quot a b <= m.
Proof.
  intros Hb Ha.
  destruct (quot_pos_spec a b Hb) as (r & E & Hr & Hp & Hn).
  destruct (Z.le_gt_cases 0 a).
  - specialize (Hp H). nia.
  - assert (a <= 0) as H' by lia. specialize (Hn H'). nia.
Qed.

Lemma quot_abs_le a b : b <> 0 -> Z.abs (Z.quot a b) <= Z.abs a.
Proof.
  intros Hb. rewrite <- Z.quot_abs by assumption.
  apply Z.quot_le_upper_bound; nia.
Qed.

Lemma div_in_abs a b :
  b <> 0 -> Int64.min_int < a <= Int64.max_int ->
  Int64.div a b = Some (Z.quot a b).
Proof.
  intros Hb Ha. apply div_in; [assumption|].
  pose proof (quot_abs_le a b Hb).
  change Int64.min_int with (-9223372036854775808) in *.
  change Int64.max_int with 9223372036854775807 in *. lia.
Qed.

Lemma rem_in a b :
  b <> 0 -> Int64.min_int < a <= Int64.max_int ->
  Int64.rem a b = Some (Z.rem a b).
Proof.
  intros Hb Ha. unfold Int64.rem.
  destruct (Z.eqb_spec b 0); [contradiction|].
  replace (Int64.in_range (Z.quot a b)) with true; [reflexivity|].
  symmetry. apply in_range_iff.
  pose proof (quot_abs_le a b Hb).
  change Int64.min_int with (-9223372036854775808) in *.
  change Int64.max_int with 9223372036854775807 in *. lia.
Qed.

End Int64Facts.

(** ** The correction filter *)

Section CorrectionFacts.

(** Unfolds one checked operation of a run that has a result. *)
Ltac checked_step H :=
  match type of H with
  | obind ?m _ = Some _ =>
      let E := fresh "E" in
      destruct m eqn:E; simpl in H; [|discriminate H]
  end.

Ltac checked_facts :=
  repeat match goal with
    | E : Int64.add _ _ = Some _ |- _ => apply add_Some in E; destruct E as [-> ?]
    | E : Int64.sub _ _ = Some _ |- _ => apply sub_Some in E; destruct E as [-> ?]
    | E : Int64.neg _ = Some _ |- _ => apply neg_Some in E; destruct E as [-> ?]
    | E : Int64.div _ _ = Some _ |- _ => apply div_Some in E; destruct E as (-> & ? & ?)
    end.

(** Whenever [correct] has a result, it is the specification's. *)
Lemma correct_refines c balance target r :
  correct c balance target = Some r -> r = correct_spec c balance target.
Proof.
  unfold correct, correct_spec. intros H.
  do 5 checked_step H. checked_facts.
  destruct ((target - balance - _correction c <? - _loss_max c)
            || (_loss_max c <? target - balance - _correction c)) eqn:B.
  - injection H as <-.
    replace (_loss_max c <? Z.abs (target - balance - _correction c)) with true;
      [reflexivity|].
    symmetry. apply Z.ltb_lt.
    apply orb_true_iff in B. rewrite !Z.ltb_lt in B. lia.
  - do 4 checked_step H. checked_facts. injection H as <-.
    replace (_loss_max c <? Z.abs (target - balance - _correction c)) with false;
      [reflexivity|].
    symmetry. apply Z.ltb_ge.
    apply orb_false_iff in B. rewrite !Z.ltb_ge in B. lia.
Qed.

(** [correct] has a result exactly when no operation leaves the 64 bit
    range on the way; this is the direction that gives the result. *)
Lemma correct_defined_when c balance target :
  let offset := target - balance in
  let average := Z.quot (_average_offset c + offset) 2 in
  let delta := average - _correction c in
  Int64.representable offset ->
  Int64.representable (_average_offset c + offset) ->
  Int64.representable (offset - _correction c) ->
  Int64.representable (- _loss_max c) ->
  (Z.abs (offset - _correction c) <= _loss_max c ->
   Int64.representable delta /\ 0 < _drift_max c + 1 <= Int64.max_int
   /\ Int64.representable (_correction c + Z.quot delta (_drift_max c + 1))) ->
  correct c balance target = Some (correct_spec c balance target).
Proof.
  intros offset average delta. subst delta average offset.
  unfold Int64.representable. intros Ho Hs Hd Hl Hg.
  destruct (correct c balance target) as [r|] eqn:E.
  - f_equal. now apply correct_refines.
  - exfalso. revert E. unfold correct.
    assert (Hmin : Int64.min_int = - 2 ^ 63) by reflexivity.
    assert (Hmax : Int64.max_int = 2 ^ 63 - 1) by reflexivity.
    assert (P63 : 2 ^ 63 = 9223372036854775808) by reflexivity.
    rewrite sub_in by lia. simpl obind.
    rewrite add_in by lia. simpl obind.
    destruct (quot_pos_spec (_average_offset c + (target - balance)) 2
                ltac:(lia)) as (r1 & Q1 & R1 & _ & _).
    rewrite div_in by lia. simpl obind.
    rewrite sub_in by lia. simpl obind.
    rewrite neg_in by lia. simpl obind.
    destruct (_ || _) eqn:B.
    + discriminate.
    + apply orb_false_iff in B. rewrite !Z.ltb_ge in B.
      destruct Hg as (G1 & G2 & G3); [lia|].
      rewrite sub_in by lia. simpl obind.
      rewrite add_in by lia. simpl obind.
      match goal with
      | |- context [Int64.div ?d _] =>
          pose proof (quot_pos_bound d (_drift_max c + 1) (Z.abs d)
                        ltac:(lia) ltac:(lia)) as Q2
      end.
      rewrite div_in by lia. simpl obind.
      rewrite add_in by lia. simpl obind. discriminate.
Qed.

(** In particular it has one as long as the numbers stay away from the
    ends of the range; the thresholds are those a setter can store. *)
Lemma correct_defined c balance target :
  0 <= _loss_max c < 2 ^ 32 -> 0 <= _drift_max c < 2 ^ 32 ->
  Z.abs (_correction c) <= 2 ^ 61 -> Z.abs (_average_offset c) <= 2 ^ 61 ->
  Z.abs balance <= 2 ^ 61 -> Z.abs target <= 2 ^ 61 ->
  correct c balance target = Some (correct_spec c balance target).
Proof.
  intros HL HD Hc Ha Hb Ht.
  assert (Hmin : Int64.min_int = - 2 ^ 63) by reflexivity.
  assert (Hmax : Int64.max_int = 2 ^ 63 - 1) by reflexivity.
  assert (P61 : 2 ^ 61 = 2305843009213693952) by reflexivity.
  assert (P63 : 2 ^ 63 = 9223372036854775808) by reflexivity.
  assert (P32 : 2 ^ 32 = 4294967296) by reflexivity.
  destruct (quot_pos_spec (_average_offset c + (target - balance)) 2
              ltac:(lia)) as (r1 & Q1 & R1 & _ & _).
  apply correct_defined_when; unfold Int64.representable; try lia.
  intros _.
  pose proof (quot_pos_bound
                (Z.quot (_average_offset c + (target - balance)) 2
                 - _correction c)
                (_drift_max c + 1)
                (Z.abs (Z.quot (_average_offset c + (target - balance)) 2
                        - _correction c)) ltac:(lia) ltac:(lia)).
  lia.
Qed.

(** C3.  For every state of the filter and every pair of inputs,
    [correct(balance, target)] computes [offset = target - balance],
    replaces the average by [(average + offset) / 2] with the division
    truncating toward zero, sets the correction to the offset if the
    offset is further than [loss_max] from it, adds
    [(average - correction) / (drift_max + 1)] to it otherwise, and
    returns the new correction: whenever the call has a result it is this
    one, and it has a result for all values up to [2^61] in magnitude. *)
Theorem correct_computes c balance target :
  (forall r, correct c balance target = Some r ->
             r = correct_spec c balance target
             /\ fst r = correction (snd r))
  /\ (0 <= _loss_max c < 2 ^ 32 -> 0 <= _drift_max c < 2 ^ 32 ->
      Z.abs (_correction c) <= 2 ^ 61 ->
      Z.abs (_average_offset c) <= 2 ^ 61 ->
      Z.abs balance <= 2 ^ 61 -> Z.abs target <= 2 ^ 61 ->
      correct c balance target = Some (correct_spec c balance target)).
Proof.
  split.
  - intros r H. apply correct_refines in H. subst r. split; reflexivity.
  - apply correct_defined.
Qed.

Lemma correct_computes_witness :
  correct Correction_default 1000 0
  = Some (-1000, mkCorrection 128 64 (-1000) (-500))
  /\ (-1000, mkCorrection 128 64 (-1000) (-500))
     = correct_spec Correction_default 1000 0.
Proof.
  split.
  - apply (proj2 (correct_computes Correction_default 1000 0));
      simpl; lia.
  - apply (proj1 (correct_computes Correction_default 1000 0)
             (-1000, mkCorrection 128 64 (-1000) (-500))).
    reflexivity.
Defined.


(** *** Balance equal to target *)

Lemma correct_same c b :
  default_thresholds c -> settled_range c ->
  exists c',
    correct c b b = Some (_correction c', c')
    /\ default_thresholds c' /\ settled_range c'
    /\ _average_offset c' = Z.quot (_average_offset c) 2
    /\ (128 < Z.abs (_correction c) -> _correction c' = 0)
    /\ (Z.abs (_correction c) <= 128 ->
        _correction c'
        = _correction c
          + Z.quot (Z.quot (_average_offset c) 2 - _correction c) 65).
Proof.
  intros [HL HD] [Hc Ha]. unfold Int64.representable in Ha.
  assert (Hmin : Int64.min_int = - 2 ^ 63) by reflexivity.
  assert (Hmax : Int64.max_int = 2 ^ 63 - 1) by reflexivity.
  assert (P63 : 2 ^ 63 = 9223372036854775808) by reflexivity.
  destruct (quot_pos_spec (_average_offset c) 2 ltac:(lia))
    as (r1 & Q1 & R1 & _ & _).
  pose proof (quot_pos_bound
                (Z.quot (_average_offset c) 2 - _correction c) 65
                (Z.abs (Z.quot (_average_offset c) 2 - _correction c))
                ltac:(lia) ltac:(lia)) as Q2.
  assert (D : correct c b b = Some (correct_spec c b b)).
  { apply correct_defined_when; unfold Int64.representable;
      rewrite ?Z.sub_diag, ?Z.add_0_r, ?HL, ?HD; try lia.
    intros. change (64 + 1) with 65. lia. }
  rewrite D. unfold correct_spec.
  rewrite Z.sub_diag, Z.add_0_r, HL, HD. change (64 + 1) with 65.
  match goal with
  | |- exists c', Some (_, ?y) = _ /\ _ => exists y
  end.
  split; [reflexivity|].
  unfold default_thresholds, settled_range, Int64.representable.
  cbn [_correction _average_offset _loss_max _drift_max].
  destruct (Z.ltb_spec 128 (Z.abs (0 - _correction c))); repeat split; lia.
Qed.

Lemma correct_repeat_add n m c b :
  correct_repeat (n + m) c b
  = obind (correct_repeat n c b) (fun c' => correct_repeat m c' b).
Proof.
  revert c. induction n as [|n IH]; intros c; simpl; [reflexivity|].
  destruct (correct c b b) as [[r c']|]; simpl; [apply IH|reflexivity].
Qed.

Lemma correct_repeat_S n c b :
  correct_repeat (S n) c b
  = obind (correct c b b) (fun r => correct_repeat n (snd r) b).
Proof. reflexivity. Qed.

(** The moving average halves with every call and is gone after as many
    calls as it has bits. *)
Lemma average_vanishes b k : forall c,
  default_thresholds c -> settled_range c ->
  Z.abs (_average_offset c) < 2 ^ Z.of_nat k ->
  exists c', correct_repeat k c b = Some c'
             /\ default_thresholds c' /\ settled_range c'
             /\ _average_offset c' = 0.
Proof.
  induction k as [|k IH]; intros c HT HR Hk.
  - exists c. change (2 ^ Z.of_nat 0) with 1 in Hk.
    simpl. split; [reflexivity|]. repeat (split; [assumption|]). lia.
  - destruct (correct_same c b HT HR) as (c1 & E & HT1 & HR1 & A1 & _).
    simpl. rewrite E. simpl. apply IH; trivial.
    rewrite A1. rewrite Nat2Z.inj_succ, Z.pow_succ_r in Hk by lia.
    destruct (quot_pos_spec (_average_offset c) 2 ltac:(lia))
      as (r1 & Q1 & R1 & Rp & Rn).
    lia.
Qed.

(** Without an average left, the correction moves by one frame per call
    toward the dead band of [drift_max] frames around zero. *)
Lemma correction_settles b j : forall c,
  default_thresholds c -> settled_range c ->
  _average_offset c = 0 -> Z.abs (_correction c) <= 64 + Z.of_nat j ->
  exists c', correct_repeat j c b = Some c'
             /\ default_thresholds c' /\ settled_range c'
             /\ _average_offset c' = 0 /\ Z.abs (_correction c') <= 64.
Proof.
  induction j as [|j IH]; intros c HT HR HA Hj.
  - exists c. simpl. split; [reflexivity|]. repeat (split; [assumption|]). lia.
  - destruct (correct_same c b HT HR) as (c1 & E & HT1 & HR1 & A1 & C1 & C2).
    simpl. rewrite E. simpl. rewrite HA in *. change (Z.quot 0 2) with 0 in *.
    apply IH; trivial.
    destruct (Z.le_gt_cases (Z.abs (_correction c)) 128) as [S|S].
    + rewrite (C2 S).
      destruct (quot_pos_spec (0 - _correction c) 65 ltac:(lia))
        as (r & Q & R & Rp & Rn).
      lia.
    + rewrite (C1 S). lia.
Qed.

(** One call without an average brings any correction within [loss_max]. *)
Lemma correction_caught c b :
  default_thresholds c -> settled_range c -> _average_offset c = 0 ->
  exists c', correct c b b = Some (_correction c', c')
             /\ default_thresholds c' /\ settled_range c'
             /\ _average_offset c' = 0 /\ Z.abs (_correction c') <= 128.
Proof.
  intros HT HR HA.
  destruct (correct_same c b HT HR) as (c1 & E & HT1 & HR1 & A1 & C1 & C2).
  exists c1. rewrite HA in *. change (Z.quot 0 2) with 0 in *.
  repeat (split; [assumption|]).
  destruct (Z.le_gt_cases (Z.abs (_correction c)) 128) as [S|S].
  - rewrite (C2 S).
    destruct (quot_pos_spec (0 - _correction c) 65 ltac:(lia))
      as (r & Q & R & Rp & Rn).
    lia.
  - rewrite (C1 S). lia.
Qed.

(** Inside the dead band nothing moves any more. *)
Lemma dead_band_fixed c b :
  default_thresholds c -> settled_range c ->
  _average_offset c = 0 -> Z.abs (_correction c) <= 64 ->
  correct c b b = Some (_correction c, c).
Proof.
  intros HT HR HA HC.
  destruct (correct_same c b HT HR) as (c1 & E & [L1 D1] & HR1 & A1 & C1 & C2).
  rewrite E. rewrite HA in *. change (Z.quot 0 2) with 0 in *.
  assert (_correction c1 = _correction c) as EC.
  { rewrite C2 by lia.
    destruct (quot_pos_spec (0 - _correction c) 65 ltac:(lia))
      as (r & Q & R & Rp & Rn).
    lia. }
  destruct HT as [L D].
  destruct c as [l d x a], c1 as [l1 d1 x1 a1]. simpl in *. congruence.
Qed.

Lemma dead_band_stays b m : forall c,
  default_thresholds c -> settled_range c ->
  _average_offset c = 0 -> Z.abs (_correction c) <= 64 ->
  correct_repeat m c b = Some c.
Proof.
  induction m as [|m IH]; intros c HT HR HA HC; simpl; [reflexivity|].
  rewrite dead_band_fixed by assumption. simpl. now apply IH.
Qed.


(** C4, as the code has it.  With the default thresholds and balance
    equal to target, 129 calls (twice [drift_max], and one) bring the
    correction of any state into the dead band of [drift_max] frames
    around zero, where every further call returns it unchanged; within the
    band the truncating division moves nothing, so zero itself need not
    be reached. *)
Theorem correct_same_settles c b n :
  default_thresholds c -> settled_range c -> (129 <= n)%nat ->
  exists c',
    correct_repeat n c b = Some c'
    /\ Z.abs (correction c') <= _drift_max c
    /\ correct c' b b = Some (correction c', c').
Proof.
  intros HT HR Hn.
  replace n with (64 + S (64 + (n - 129)))%nat by lia.
  destruct (average_vanishes b 64 c HT HR) as (c1 & E1 & HT1 & HR1 & A1).
  { destruct HR as [_ Ha]. unfold Int64.representable in Ha.
    change (2 ^ Z.of_nat 64) with 18446744073709551616.
    change Int64.min_int with (-9223372036854775808) in Ha.
    change Int64.max_int with 9223372036854775807 in Ha. lia. }
  destruct (correction_caught c1 b HT1 HR1 A1) as (c2 & E2 & HT2 & HR2 & A2 & C2).
  destruct (correction_settles b 64 c2 HT2 HR2 A2) as (c3 & E3 & HT3 & HR3 & A3 & C3).
  { change (Z.of_nat 64) with 64. lia. }
  exists c3. split; [|split].
  - rewrite correct_repeat_add, E1. cbn [obind].
    rewrite correct_repeat_S, E2. cbn [obind snd].
    rewrite correct_repeat_add, E3. cbn [obind].
    now apply dead_band_stays.
  - destruct HT as [_ ->]. exact C3.
  - now apply dead_band_fixed.
Qed.

Lemma correct_same_settles_witness :
  exists c',
    correct_repeat 200 (mkCorrection 128 64 100 5000) 7 = Some c'
    /\ Z.abs (correction c') <= 64
    /\ correct c' 7 7 = Some (correction c', c').
Proof.
  apply (correct_same_settles (mkCorrection 128 64 100 5000) 7 200).
  - split; reflexivity.
  - unfold settled_range, Int64.representable, Int64.min_int, Int64.max_int.
    simpl. lia.
  - lia.
Defined.

Lemma drifted_stays n : forall c,
  default_thresholds c -> _correction c = 1 ->
  0 <= _average_offset c <= 96 ->
  exists c', correct_repeat n c 0 = Some c' /\ _correction c' = 1.
Proof.
  induction n as [|n IH]; intros c HT HC HA.
  - exists c. split; [reflexivity|assumption].
  - destruct (correct_same c 0 HT) as (c1 & E & HT1 & HR1 & A1 & C1 & C2).
    { split; [rewrite HC; split; [reflexivity|discriminate]|].
      unfold Int64.representable.
      change Int64.min_int with (-9223372036854775808).
      change Int64.max_int with 9223372036854775807. lia. }
    simpl. rewrite E. simpl.
    destruct (quot_pos_spec (_average_offset c) 2 ltac:(lia))
      as (r1 & Q1 & R1 & Rp & Rn).
    apply IH; trivial.
    + rewrite C2 by lia. rewrite HC.
      destruct (quot_pos_spec (Z.quot (_average_offset c) 2 - 1) 65 ltac:(lia))
        as (r2 & Q2 & R2 & Rp2 & Rn2).
      lia.
    + lia.
Qed.

(** C4, as stated, fails: the filter reaches the state [drifted] from its
    default state by two calls with the balance [-128], and from there no
    number of calls with balance equal to target brings the correction
    to zero. *)
Lemma correct_same_not_zero :
  obind (correct0 Correction_default (-128)) (fun r => correct0 (snd r) (-128))
  = Some (1, drifted)
  /\ ~ (exists n c', correct_repeat n drifted 0 = Some c' /\ correction c' = 0).
Proof.
  split; [reflexivity|].
  intros (n & c' & E & Z0).
  destruct (drifted_stays n drifted) as (c1 & E1 & C1).
  - split; reflexivity.
  - reflexivity.
  - simpl. lia.
  - rewrite E in E1. injection E1 as <-. unfold correction in Z0. lia.
Qed.

(** *** Bounded balances *)

Lemma correct0_bounded c b :
  default_thresholds c ->
  Z.abs (_correction c) <= 128 -> Z.abs (_average_offset c) <= 128 ->
  Z.abs b <= 128 ->
  exists c',
    correct0 c b = Some (_correction c', c')
    /\ default_thresholds c'
    /\ Z.abs (_correction c') <= 128 /\ Z.abs (_average_offset c') <= 128
    /\ (Z.abs (_correction c' - _correction c) <= 2
        \/ (128 < Z.abs (0 - b - _correction c) /\ _correction c' = 0 - b)).
Proof.
  intros [HL HD] HC HA HB.
  assert (Hmin : Int64.min_int = - 2 ^ 63) by reflexivity.
  assert (Hmax : Int64.max_int = 2 ^ 63 - 1) by reflexivity.
  assert (P63 : 2 ^ 63 = 9223372036854775808) by reflexivity.
  destruct (quot_pos_spec (_average_offset c + (0 - b)) 2 ltac:(lia))
    as (r1 & Q1 & R1 & Rp1 & Rn1).
  destruct (quot_pos_spec
              (Z.quot (_average_offset c + (0 - b)) 2 - _correction c) 65
              ltac:(lia)) as (r2 & Q2 & R2 & Rp2 & Rn2).
  assert (D : correct c b 0 = Some (correct_spec c b 0)).
  { apply correct_defined_when; unfold Int64.representable;
      rewrite ?HL, ?HD; try lia.
    intros. change (64 + 1) with 65. lia. }
  unfold correct0. rewrite D. unfold correct_spec.
  rewrite HL, HD. change (64 + 1) with 65.
  match goal with
  | |- exists c', Some (_, ?y) = _ /\ _ => exists y
  end.
  split; [reflexivity|].
  unfold default_thresholds.
  cbn [_correction _average_offset _loss_max _drift_max].
  destruct (Z.ltb_spec 128 (Z.abs (0 - b - _correction c))).
  - split; [split; reflexivity|]. split; [lia|]. split; [lia|]. right. lia.
  - split; [split; reflexivity|]. split; [lia|]. split; [lia|]. left. lia.
Qed.

Lemma corrections_bounded_from balances : forall c,
  default_thresholds c ->
  Z.abs (_correction c) <= 128 -> Z.abs (_average_offset c) <= 128 ->
  balances_within 128 balances ->
  exists values,
    corrections c balances = Some values
    /\ Forall (fun v => Z.abs v <= 128) values
    /\ gentle_or_rigorous 128 2 (_correction c) balances values.
Proof.
  induction balances as [|b bs IH]; intros c HT HC HA HB.
  - exists []. simpl. auto.
  - inversion HB as [|? ? Hb Hbs]; subst.
    destruct (correct0_bounded c b HT HC HA Hb)
      as (c1 & E & HT1 & HC1 & HA1 & Hstep).
    destruct (IH c1 HT1 HC1 HA1 Hbs) as (vs & Evs & Hvs & Hgr).
    exists (_correction c1 :: vs). simpl. rewrite E. simpl.
    rewrite Evs. simpl. auto.
Qed.

(** C9, as the code has it.  Balances of at most [loss_max] frames, fed
    to a default filter with target 0, keep every returned correction
    within [loss_max] frames of zero; a value differs from the one before
    it by at most [ceil(loss_max / (drift_max + 1))] frames, unless the
    call took the rigorous step, which sets the correction to the offset
    when that is further than [loss_max] from it. *)
Theorem corrections_bounded balances :
  balances_within (_loss_max Correction_default) balances ->
  exists values,
    corrections Correction_default balances = Some values
    /\ Forall (fun v => Z.abs v <= _loss_max Correction_default) values
    /\ gentle_or_rigorous
         (_loss_max Correction_default)
         (ceil_div (_loss_max Correction_default)
                   (_drift_max Correction_default + 1))
         (correction Correction_default) balances values.
Proof.
  intros H. apply corrections_bounded_from; trivial.
  - split; reflexivity.
  - simpl. lia.
  - simpl. lia.
Qed.

Lemma corrections_bounded_witness :
  exists values,
    corrections Correction_default [0; 10; 20; 30; 40; 50] = Some values
    /\ Forall (fun v => Z.abs v <= 128) values
    /\ gentle_or_rigorous 128 2 0 [0; 10; 20; 30; 40; 50] values.
Proof.
  apply (corrections_bounded [0; 10; 20; 30; 40; 50]).
  repeat constructor; simpl; lia.
Defined.

(** C9, as stated, fails: after two balances of [-128] the correction is
    1, and the balance [128] then moves it by 129 frames in one call,
    more than [ceil(128 / 65) = 2]. *)
Lemma corrections_step_exceeded :
  balances_within 128 [-128; -128; 128]
  /\ corrections Correction_default [-128; -128; 128] = Some [0; 1; -128]
  /\ ~ Z.abs (-128 - 1) <= ceil_div 128 (64 + 1).
Proof.
  split; [|split].
  - repeat constructor; simpl; lia.
  - reflexivity.
  - vm_compute. intros H. apply H. reflexivity.
Qed.

(** *** The range of the filter *)

(** A truncated quotient by a positive number lies between 0 and the
    dividend. *)
Lemma quot_between x d :
  0 < d ->
  (0 <= x -> 0 <= Z.quot x d <= x) /\ (x <= 0 -> x <= Z.quot x d <= 0).
Proof.
  intros Hd.
  destruct (quot_pos_spec x d Hd) as (r & Q & R & Rp & Rn).
  split; intros Hx.
  - specialize (Rp Hx). nia.
  - specialize (Rn Hx). nia.
Qed.

(** The truncated mean of two numbers lies between them. *)
Lemma mean_between a o lo hi :
  lo <= a <= hi -> lo <= o <= hi -> lo <= Z.quot (a + o) 2 <= hi.
Proof.
  intros Ha Ho.
  destruct (quot_pos_spec (a + o) 2 ltac:(lia)) as (r & Q & R & Rp & Rn).
  lia.
Qed.

(** One call keeps the filter between the bounds that hold its state and
    the offset, and has a result there. *)
Lemma correct_in_hull c balance target lo hi :
  setter_thresholds c -> - 2 ^ 61 <= lo -> hi <= 2 ^ 61 ->
  within lo hi c -> lo <= target - balance <= hi ->
  exists c',
    correct c balance target = Some (_correction c', c')
    /\ _loss_max c' = _loss_max c /\ _drift_max c' = _drift_max c
    /\ within lo hi c'.
Proof.
  intros [HL HD] Hlo Hhi [Hc Ha] Ho.
  assert (Hmin : Int64.min_int = - 2 ^ 63) by reflexivity.
  assert (Hmax : Int64.max_int = 2 ^ 63 - 1) by reflexivity.
  assert (P61 : 2 ^ 61 = 2305843009213693952) by reflexivity.
  assert (P63 : 2 ^ 63 = 9223372036854775808) by reflexivity.
  assert (P32 : 2 ^ 32 = 4294967296) by reflexivity.
  pose proof (mean_between _ _ lo hi Ha Ho) as Hm.
  destruct (quot_between
              (Z.quot (_average_offset c + (target - balance)) 2 - _correction c)
              (_drift_max c + 1) ltac:(lia)) as [Qp Qn].
  assert (D : correct c balance target = Some (correct_spec c balance target)).
  { apply correct_defined_when; unfold Int64.representable; lia. }
  rewrite D. unfold correct_spec.
  match goal with
  | |- exists c', Some (_, ?y) = _ /\ _ => exists y
  end.
  split; [reflexivity|]. unfold within.
  cbn [_correction _average_offset _loss_max _drift_max].
  split; [reflexivity|]. split; [reflexivity|].
  split; [|exact Hm].
  destruct (_ <? _); [lia|].
  destruct (Z.le_gt_cases 0
    (Z.quot (_average_offset c + (target - balance)) 2 - _correction c));
    [specialize (Qp ltac:(lia)) | specialize (Qn ltac:(lia))]; lia.
Qed.

(** X1.  Fed any balances whose offsets lie between [lo] and [hi], a filter that
    starts between these bounds answers every call, and never with a
    correction outside of them: the correction stays in the range of the
    offsets it has seen. *)
Theorem corrections_within_hull lo hi balances : forall c,
  setter_thresholds c -> - 2 ^ 61 <= lo -> hi <= 2 ^ 61 ->
  within lo hi c ->
  Forall (fun b => lo <= 0 - b <= hi) balances ->
  exists values,
    corrections c balances = Some values
    /\ Forall (fun v => lo <= v <= hi) values.
Proof.
  induction balances as [|b bs IH]; intros c HT Hlo Hhi HW HB.
  - exists []. split; [reflexivity|constructor].
  - inversion HB as [|? ? Hb Hbs]; subst.
    destruct (correct_in_hull c b 0 lo hi HT Hlo Hhi HW Hb)
      as (c1 & E & L1 & D1 & W1).
    destruct (IH c1) as (vs & Evs & Hvs); trivial.
    { unfold setter_thresholds. rewrite L1, D1. exact HT. }
    exists (_correction c1 :: vs). simpl. unfold correct0. rewrite E. simpl.
    rewrite Evs. simpl. split; [reflexivity|].
    constructor; [apply W1|assumption].
Qed.

Lemma corrections_within_hull_witness :
  exists values,
    corrections (mkCorrection 300 10 0 0) [-200; 50; -120; 0] = Some values
    /\ Forall (fun v => -50 <= v <= 200) values.
Proof.
  apply (corrections_within_hull (-50) 200 [-200; 50; -120; 0]
           (mkCorrection 300 10 0 0)).
  - unfold setter_thresholds. simpl. lia.
  - simpl. lia.
  - simpl. lia.
  - unfold within. simpl. lia.
  - repeat constructor; simpl; lia.
Defined.

(** *** Laws of the filter *)

(** X2.  Only the difference of target and balance counts: correcting a channel
    against a master channel is correcting their relative balance against
    0. *)
Theorem correct_relative c balance target k :
  correct c (balance + k) (target + k) = correct c balance target
  /\ correct c balance target = correct0 c (balance - target).
Proof.
  unfold correct0, correct. split.
  - replace (Int64.sub (target + k) (balance + k)) with (Int64.sub target balance);
      [reflexivity|].
    unfold Int64.sub. f_equal. lia.
  - replace (Int64.sub 0 (balance - target)) with (Int64.sub target balance);
      [reflexivity|].
    unfold Int64.sub. f_equal. lia.
Qed.

Lemma correct_spec_mirrored c balance target :
  correct_spec (mirrored c) (- balance) (- target)
  = (- fst (correct_spec c balance target),
     mirrored (snd (correct_spec c balance target))).
Proof.
  unfold correct_spec, mirrored.
  cbn [fst snd _correction _average_offset _loss_max _drift_max].
  replace (- _average_offset c + (- target - - balance))
    with (- (_average_offset c + (target - balance))) by lia.
  rewrite Z.quot_opp_l by lia.
  replace (- target - - balance - - _correction c)
    with (- (target - balance - _correction c)) by lia.
  rewrite Z.abs_opp.
  destruct (_ <? _).
  - f_equal; [lia|]. f_equal. lia.
  - replace (- Z.quot (_average_offset c + (target - balance)) 2 - - _correction c)
      with (- (Z.quot (_average_offset c + (target - balance)) 2 - _correction c))
      by lia.
    destruct (Z.eq_dec (_drift_max c + 1) 0) as [E|E].
    + assert (Q0 : forall x, Z.quot x 0 = 0) by (intros []; reflexivity).
      rewrite E, !Q0. f_equal; [lia|]. f_equal. lia.
    + rewrite Z.quot_opp_l by assumption. f_equal; [lia|]. f_equal. lia.
Qed.

(** X3.  The filter treats a channel that is ahead like one that is behind:
    with all frame counts negated, it returns the negated correction and
    ends in the mirrored state.  (The division of the source truncates
    toward zero, which is what makes this hold.) *)
Theorem correct_mirrored c balance target :
  setter_thresholds c ->
  Z.abs (_correction c) <= 2 ^ 61 -> Z.abs (_average_offset c) <= 2 ^ 61 ->
  Z.abs balance <= 2 ^ 61 -> Z.abs target <= 2 ^ 61 ->
  exists v c',
    correct c balance target = Some (v, c')
    /\ correct (mirrored c) (- balance) (- target) = Some (- v, mirrored c').
Proof.
  intros [HL HD] Hc Ha Hb Ht.
  exists (fst (correct_spec c balance target)),
         (snd (correct_spec c balance target)).
  split.
  - rewrite correct_defined by assumption.
    now destruct (correct_spec c balance target).
  - rewrite correct_defined; unfold mirrored;
      cbn [_correction _average_offset _loss_max _drift_max];
      rewrite ?Z.abs_opp; try assumption.
    fold (mirrored c). now rewrite correct_spec_mirrored.
Qed.

Lemma correct_mirrored_witness :
  exists v c',
    correct (mkCorrection 128 64 1 96) (-128) 0 = Some (v, c')
    /\ correct (mirrored (mkCorrection 128 64 1 96)) (- -128) (- 0)
       = Some (- v, mirrored c').
Proof.
  apply (correct_mirrored (mkCorrection 128 64 1 96) (-128) 0);
    unfold setter_thresholds; simpl; lia.
Defined.

(** X4.  What one call does to the correction.  Further than [loss_max] from
    the offset, it becomes the offset.  Otherwise it stays as it is while
    the new average is within [drift_max] of it, and moves by at least one
    frame toward the new average, never past it, when the average is
    further away. *)
Theorem correct_step_kinds c balance target v c' :
  0 <= _loss_max c -> 0 <= _drift_max c ->
  correct c balance target = Some (v, c') ->
  v = _correction c'
  /\ (_loss_max c < Z.abs (target - balance - _correction c) ->
      v = target - balance)
  /\ (Z.abs (target - balance - _correction c) <= _loss_max c ->
      (Z.abs (_average_offset c' - _correction c) <= _drift_max c ->
       v = _correction c)
      /\ (_drift_max c < _average_offset c' - _correction c ->
          _correction c < v <= _average_offset c')
      /\ (_average_offset c' - _correction c < - _drift_max c ->
          _average_offset c' <= v < _correction c)).
Proof.
  intros HL HD H. apply correct_refines in H.
  unfold correct_spec in H. injection H as Hv Hc. subst c' v.
  cbn [_correction _average_offset]. split; [reflexivity|].
  set (a := Z.quot (_average_offset c + (target - balance)) 2) in *.
  destruct (Z.ltb_spec (_loss_max c) (Z.abs (target - balance - _correction c))).
  - split; [intros _; reflexivity | intros; lia].
  - split; [intros; lia|]. intros _.
    destruct (quot_pos_spec (a - _correction c) (_drift_max c + 1) ltac:(lia))
      as (r & Q & R & Rp & Rn).
    repeat split; intros; nia.
Qed.

Lemma correct_step_kinds_witness :
  96 = _correction (mkCorrection 128 64 96 161)
  /\ (128 < Z.abs (0 - (-128) - 95) -> 96 = 0 - (-128))
  /\ (Z.abs (0 - (-128) - 95) <= 128 ->
      (Z.abs (161 - 95) <= 64 -> 96 = 95)
      /\ (64 < 161 - 95 -> 95 < 96 <= 161)
      /\ (161 - 95 < - 64 -> 161 <= 96 < 95)).
Proof.
  apply (correct_step_kinds (mkCorrection 128 64 95 194) (-128) 0
           96 (mkCorrection 128 64 96 161)).
  - simpl. lia.
  - simpl. lia.
  - reflexivity.
Defined.

End CorrectionFacts.

(** ** The loop driver *)

Section DriverFacts.

Context {W : Type}.
Variable chan : Channel.ops W.
Variable clock : FrameClock.ops W.

Let state := TestRun.t (W:=W).

(** Takes apart the innermost case distinction of a run that has a
    result. *)
Ltac break_inner H :=
  match type of H with
  | context [match ?x with _ => _ end] =>
      lazymatch x with
      | context [match _ with _ => _ end] => fail
      | _ => destruct x eqn:?
      end
  end.

Ltac reduce_in H :=
  cbn beta iota zeta delta
    [TestRun.world TestRun._sync_frames TestRun._gap TestRun.calls
     TestRun._in_correction TestRun._out_correction fst snd negb] in H.

Ltac reduce_goal :=
  cbn beta iota zeta delta
    [TestRun.world TestRun._sync_frames TestRun._gap TestRun.calls
     TestRun._in_correction TestRun._out_correction fst snd negb].

Ltac run_in H :=
  cbv beta delta [TestRun.bind TestRun.ret TestRun.sync_frames TestRun.gap
                  TestRun.query TestRun.call TestRun.emit TestRun.int64
                  TestRun.set_sync_frames TestRun.set_gap
                  TestRun.get_correction TestRun.set_correction] in H;
  reduce_in H;
  repeat (break_inner H; try discriminate H; reduce_in H);
  try (first [injection H as ? ? | injection H as ?]; subst);
  repeat match goal with
    | E : negb ?b = _ |- _ => destruct b; try discriminate E; clear E
    end.

Lemma bind_Some {A B} (m : TestRun.M A) (k : A -> TestRun.M B)
      (s : state) b s' :
  TestRun.bind m k s = Some (b, s') ->
  exists a s1, m s = Some (a, s1) /\ k a s1 = Some (b, s').
Proof.
  unfold TestRun.bind. destruct (m s) as [[a s1]|]; [|discriminate].
  intros H. exists a, s1. auto.
Qed.

(** On frame times that are not negative the truncating operators of
    the source agree with rounding down. *)
Lemma block_index sync block index :
  0 <= sync ->
  Int64.div sync 1024 = Some block -> Int64.rem block 8 = Some index ->
  index = (sync / 1024) mod 8.
Proof.
  intros Hs Hd Hr.
  apply div_Some in Hd. destruct Hd as (-> & _ & _).
  apply rem_Some in Hr. destruct Hr as (-> & _).
  rewrite Z.quot_div_nonneg by lia.
  apply Z.rem_mod_nonneg; [|lia].
  apply Z.div_pos; lia.
Qed.

(** C7.  Whenever [sleep] does sleep (the next wakeup is after the
    current frame time), the deadline it passes to the clock is the wakeup
    plus [8 * 1024] frames exactly when the current frame time lies in a
    block of 1024 frames whose number is 7 modulo 8, and plus nothing
    otherwise; when the clock has slept, the frame time is set to the
    wakeup, without the delay. *)
Theorem sleep_adds_simulated_delay (s s' : state) ok :
  0 <= TestRun._sync_frames s ->
  TestRun._sync_frames s < next_wakeup chan s ->
  TestRun.sleep_until_wakeup chan clock s = Some (ok, s') ->
  TestRun.calls s'
  = ClockSleep (next_wakeup chan s + simulated_delay (TestRun._sync_frames s))
    :: (if simulated_delay (TestRun._sync_frames s) =? 0 then []
        else [Warn "Simulate late wakeup by %lld."])
    ++ TestRun.calls s
  /\ (ok, TestRun.world s')
     = FrameClock.sleep clock
         (next_wakeup chan s + simulated_delay (TestRun._sync_frames s))
         (TestRun.world s)
  /\ TestRun._sync_frames s'
     = (if ok then next_wakeup chan s else TestRun._sync_frames s).
Proof.
  intros Hs Hw H. unfold next_wakeup in *.
  unfold TestRun.sleep_until_wakeup in H. run_in H;
    try (apply Z.ltb_ge in Heqb; lia);
    pose proof (block_index _ _ _ Hs Heqo Heqo0) as Hi;
    apply add_Some in Heqo1; destruct Heqo1 as [-> _];
    unfold simulated_delay; rewrite <- Hi, Heqb0; cbn [Z.eqb app];
    rewrite ?Z.add_0_r in *; rewrite Heqp; cbn; auto.
Qed.

(** When the next wakeup is not after the current frame time, [sleep]
    does not sleep. *)
Lemma sleep_until_wakeup_now (s : state) :
  next_wakeup chan s <= TestRun._sync_frames s ->
  TestRun.sleep_until_wakeup chan clock s = Some (true, s).
Proof.
  intros H. unfold TestRun.sleep_until_wakeup, next_wakeup in *.
  cbv beta delta [TestRun.bind TestRun.ret TestRun.sync_frames TestRun.query].
  cbn beta iota zeta.
  destruct (Z.ltb_spec (TestRun._sync_frames s)
    (Z.min (Channel.wakeup_time chan ChIn (TestRun._sync_frames s) (TestRun.world s))
           (Channel.wakeup_time chan ChOut (TestRun._sync_frames s) (TestRun.world s))));
    [lia|reflexivity].
Qed.

(** *** Defined behaviour

    [sleep] has a result on every moderate device: none of its operations
    leaves the 64 bit range or divides by zero there. *)

Ltac device_bounds Hw Hp He Hn Hs :=
  repeat match goal with
    | H : FrameClock.now clock ?w = _ |- _ =>
        let B := fresh "B" in
        pose proof (Hn w) as B; rewrite H in B; cbn [fst snd] in B;
        clear H
    end;
  repeat match goal with
    | H : context [Channel.wakeup_time chan ?c ?z ?w] |- _ =>
        lazymatch goal with
        | _ : moderate (Channel.wakeup_time chan c z w) |- _ => fail
        | _ => pose proof (Hw c z w)
        end
    | H : context [Channel.period_end chan ?c ?w] |- _ =>
        lazymatch goal with
        | _ : moderate (Channel.period_end chan c w) |- _ => fail
        | _ => pose proof (Hp c w)
        end
    | H : context [Channel.end_frames chan ?c ?w] |- _ =>
        lazymatch goal with
        | _ : moderate (Channel.end_frames chan c w) |- _ => fail
        | _ => pose proof (He c w)
        end
    | H : context [Channel.stepping chan ChIn ?w] |- _ =>
        lazymatch goal with
        | _ : Channel.stepping chan ChIn w <> 0%N |- _ => fail
        | _ => pose proof (Hs w)
        end
    end;
  unfold moderate in *;
  change (2 ^ 61) with 2305843009213693952 in *;
  change Int64.min_int with (-9223372036854775808) in *;
  change Int64.max_int with 9223372036854775807 in *.

Ltac checked_values :=
  repeat match goal with
    | H : (_ <? _) = true |- _ => apply Z.ltb_lt in H
    | H : (_ <? _) = false |- _ => apply Z.ltb_ge in H
    | H : Int64.add _ _ = Some _ |- _ => apply add_Some in H; destruct H as [-> ?]
    | H : Int64.sub _ _ = Some _ |- _ => apply sub_Some in H; destruct H as [-> ?]
    | H : Int64.div _ _ = Some _ |- _ => apply div_Some in H; destruct H as (-> & ? & ?)
    | H : Int64.rem _ _ = Some _ |- _ => apply rem_Some in H; destruct H as (-> & ?)
    end;
  change Int64.min_int with (-9223372036854775808) in *;
  change Int64.max_int with 9223372036854775807 in *.

Ltac quotient_bounds :=
  repeat match goal with
    | H : context [Z.quot ?a ?b] |- _ =>
        lazymatch goal with
        | _ : Z.abs (Z.quot a b) <= Z.abs a |- _ => fail
        | _ => pose proof (quot_abs_le a b ltac:(lia))
        end
    | H : context [Z.rem ?a ?b] |- _ =>
        lazymatch goal with
        | _ : 0 <= Z.rem a b < b |- _ => fail
        | _ => pose proof (Z.rem_bound_pos a b ltac:(lia) ltac:(lia))
        end
    end.

Ltac in_range :=
  change Int64.min_int with (-9223372036854775808);
  change Int64.max_int with 9223372036854775807;
  lia.

Ltac never_undefined :=
  match goal with
  | H : Int64.add _ _ = None |- _ =>
      rewrite add_in in H by in_range; discriminate H
  | H : Int64.sub _ _ = None |- _ =>
      rewrite sub_in in H by in_range; discriminate H
  | H : Int64.div _ _ = None |- _ =>
      rewrite div_in_abs in H by in_range; discriminate H
  | H : Int64.rem _ _ = None |- _ =>
      rewrite rem_in in H by in_range; discriminate H
  end.

Lemma sleep_until_wakeup_defined (s : state) :
  moderate_device chan clock -> moderate (TestRun._sync_frames s) ->
  exists ok s', TestRun.sleep_until_wakeup chan clock s = Some (ok, s')
                /\ moderate (TestRun._sync_frames s').
Proof.
  intros (Hw & Hp & He & Hn & Hs) Hm.
  destruct (TestRun.sleep_until_wakeup chan clock s) as [[ok s']|] eqn:E.
  - exists ok, s'. split; [reflexivity|].
    unfold TestRun.sleep_until_wakeup in E. run_in E; reduce_goal;
      solve [assumption | unfold moderate; device_bounds Hw Hp He Hn Hs; lia].
  - exfalso. unfold TestRun.sleep_until_wakeup in E. run_in E;
      device_bounds Hw Hp He Hn Hs; checked_values; quotient_bounds;
      never_undefined.
Qed.

Lemma sleep_check_wakeup_defined (s : state) :
  moderate_device chan clock -> moderate (TestRun._sync_frames s) ->
  exists ok s', TestRun.sleep_check_wakeup chan clock s = Some (ok, s')
                /\ moderate (TestRun._sync_frames s').
Proof.
  intros (Hw & Hp & He & Hn & Hs) Hm.
  destruct (TestRun.sleep_check_wakeup chan clock s) as [[ok s']|] eqn:E.
  - exists ok, s'. split; [reflexivity|].
    unfold TestRun.sleep_check_wakeup in E. run_in E; reduce_goal;
      try assumption;
      device_bounds Hw Hp He Hn Hs; checked_values; quotient_bounds; lia.
  - exfalso. unfold TestRun.sleep_check_wakeup in E. run_in E;
      device_bounds Hw Hp He Hn Hs; checked_values; quotient_bounds;
      never_undefined.
Qed.

Lemma sleep_gap_defined (s : state) :
  moderate_device chan clock -> moderate (TestRun._sync_frames s) ->
  exists s', TestRun.sleep_gap chan s = Some (tt, s').
Proof.
  intros (Hw & Hp & He & Hn & Hs) Hm.
  destruct (TestRun.sleep_gap chan s) as [[[] s']|] eqn:E; [eauto|].
  exfalso. unfold TestRun.sleep_gap in E. run_in E;
    device_bounds Hw Hp He Hn Hs; checked_values; never_undefined.
Qed.

Lemma sleep_defined (s : state) :
  moderate_device chan clock -> moderate (TestRun._sync_frames s) ->
  exists ok s', TestRun.sleep chan clock s = Some (ok, s').
Proof.
  intros Hd Hm. unfold TestRun.sleep, TestRun.sleep_to_now.
  destruct (sleep_until_wakeup_defined s Hd Hm) as (ok1 & s1 & E1 & M1).
  unfold TestRun.bind at 1 2. rewrite E1.
  destruct ok1; cbn [negb]; [|eexists; eexists; reflexivity].
  destruct (sleep_check_wakeup_defined s1 Hd M1) as (ok2 & s2 & E2 & M2).
  rewrite E2.
  destruct ok2; cbn [negb]; [|eexists; eexists; reflexivity].
  destruct (sleep_gap_defined s2 Hd M2) as (s3 & E3).
  unfold TestRun.bind. rewrite E3. eexists; eexists; reflexivity.
Qed.


(** *** The gap *)

Lemma sleep_Some (s s' : state) :
  TestRun.sleep chan clock s = Some (true, s') ->
  exists s1, TestRun.sleep_to_now chan clock s = Some (true, s1)
             /\ TestRun.sleep_gap chan s1 = Some (tt, s').
Proof.
  intros H. unfold TestRun.sleep in H.
  apply bind_Some in H. destruct H as (awake & s1 & E1 & H).
  destruct awake; cbn [negb] in H; [|discriminate H].
  apply bind_Some in H. destruct H as ([] & s2 & E2 & H).
  injection H as <-. eauto.
Qed.

Lemma sleep_gap_Some (s1 s' : state) :
  TestRun.sleep_gap chan s1 = Some (tt, s') ->
  let g := gap_behind (TestRun._sync_frames s1)
                      (Channel.period_end chan ChIn (TestRun.world s1))
                      (Channel.period_end chan ChOut (TestRun.world s1)) in
  let reset_in := Channel.end_frames chan ChIn (TestRun.world s1) + g in
  let w := Channel.reset_buffers chan ChIn reset_in (TestRun.world s1) in
  let reset_out := Channel.end_frames chan ChOut w + g in
  TestRun._sync_frames s' = TestRun._sync_frames s1
  /\ if 1024 <? g then
       TestRun._gap s' = g
       /\ TestRun.calls s'
          = ResetBuffers ChOut reset_out :: ResetBuffers ChIn reset_in
            :: TestRun.calls s1
       /\ TestRun.world s' = Channel.reset_buffers chan ChOut reset_out w
     else
       TestRun._gap s' = 0
       /\ TestRun.calls s' = TestRun.calls s1
       /\ TestRun.world s' = TestRun.world s1.
Proof.
  intros H. unfold TestRun.sleep_gap in H. run_in H;
    repeat match goal with
      | E : Int64.add _ _ = Some _ |- _ => apply add_Some in E; destruct E as [-> _]
      | E : Int64.sub _ _ = Some _ |- _ => apply sub_Some in E; destruct E as [-> _]
      end;
    unfold gap_behind; reduce_goal; rewrite Heqb; auto.
Qed.

Lemma shift_by_gap_Some l (s : state) l' s' :
  TestRun.shift_by_gap l s = Some (l', s') ->
  if 0 <? TestRun._gap s then
    l' = shifted (TestRun._gap s) l /\ s' = gap_cleared s
  else l' = l /\ s' = s.
Proof.
  intros H. unfold TestRun.shift_by_gap in H. run_in H;
    repeat match goal with
      | E : Int64.add _ _ = Some _ |- _ => apply add_Some in E; destruct E as [-> _]
      end;
    reduce_goal; auto.
Qed.

(** A pass through the body of the loop that reaches its end went
    through each of its steps, in the order of the source. *)
Lemma loop_body_continues period l (s : state) l' s' :
  TestRun.loop_body chan clock period l s = Some ((None, l'), s') ->
  exists s1 l1 s2 l2 s3 s4,
    TestRun.process chan s = Some (true, s1)
    /\ TestRun.period_finished chan ChIn period l s1 = Some (l1, s2)
    /\ TestRun.period_finished chan ChOut period l1 s2 = Some (l2, s3)
    /\ TestRun.sleep chan clock s3 = Some (true, s4)
    /\ TestRun.shift_by_gap l2 s4 = Some (l', s').
Proof.
  intros H. unfold TestRun.loop_body in H.
  apply bind_Some in H. destruct H as (ok & s1 & E1 & H).
  destruct ok; cbn [negb] in H; [|discriminate H].
  apply bind_Some in H. destruct H as (l1 & s2 & E2 & H).
  apply bind_Some in H. destruct H as (l2 & s3 & E3 & H).
  apply bind_Some in H. destruct H as (ok & s4 & E4 & H).
  destruct ok; cbn [negb] in H; [|discriminate H].
  apply bind_Some in H. destruct H as (l3 & s5 & E5 & H).
  injection H as <- <-. exists s1, l1, s2, l2, s3, s4. auto.
Qed.

(** C6.  In every call of [sleep] that succeeds, the gap is, at the
    corrected frame time, the largest of 0 and of the distances of that
    time to the period ends of the two channels; exactly when it exceeds
    1024 frames both channels get [reset_buffers(end_frames() + gap)] and
    the gap is kept, and it is set to 0 otherwise.  Back in the loop, in
    every pass that reaches the end of the body, the gap that this pass's
    call of [sleep] left is, when positive, added to the [in_frames] and
    the [out_frames] that the pass has reached (after the two channels'
    completed periods have been counted) and then cleared, after the
    warning; the locals and the object are otherwise left as they are, and
    a gap of 0 changes nothing. *)
Theorem gap_resets_buffers :
  (forall s s' : state,
      TestRun.sleep chan clock s = Some (true, s') ->
      exists s1,
        TestRun.sleep_to_now chan clock s = Some (true, s1)
        /\ TestRun.sleep_gap chan s1 = Some (tt, s')
        /\ let g := gap_behind (TestRun._sync_frames s1)
                     (Channel.period_end chan ChIn (TestRun.world s1))
                     (Channel.period_end chan ChOut (TestRun.world s1)) in
           let reset_in := Channel.end_frames chan ChIn (TestRun.world s1) + g in
           let w := Channel.reset_buffers chan ChIn reset_in (TestRun.world s1) in
           let reset_out := Channel.end_frames chan ChOut w + g in
           if 1024 <? g then
             TestRun._gap s' = g
             /\ TestRun.calls s'
                = ResetBuffers ChOut reset_out :: ResetBuffers ChIn reset_in
                  :: TestRun.calls s1
             /\ TestRun.world s' = Channel.reset_buffers chan ChOut reset_out w
           else
             TestRun._gap s' = 0
             /\ TestRun.calls s' = TestRun.calls s1
             /\ TestRun.world s' = TestRun.world s1)
  /\ (forall period l (s : state) l' s',
         TestRun.loop_body chan clock period l s = Some ((None, l'), s') ->
         exists s1 l1 s2 l2 s3 s4,
           TestRun.process chan s = Some (true, s1)
           /\ TestRun.period_finished chan ChIn period l s1 = Some (l1, s2)
           /\ TestRun.period_finished chan ChOut period l1 s2 = Some (l2, s3)
           /\ TestRun.sleep chan clock s3 = Some (true, s4)
           /\ if 0 <? TestRun._gap s4 then
                TestRun.in_frames l' = TestRun.in_frames l2 + TestRun._gap s4
                /\ TestRun.out_frames l' = TestRun.out_frames l2 + TestRun._gap s4
                /\ TestRun._gap s' = 0
                /\ l' = shifted (TestRun._gap s4) l2
                /\ s' = gap_cleared s4
              else l' = l2 /\ s' = s4).
Proof.
  split.
  - intros s s' H. destruct (sleep_Some s s' H) as (s1 & E1 & E2).
    exists s1. split; [assumption|]. split; [assumption|].
    apply (sleep_gap_Some s1 s' E2).
  - intros period l s l' s' H.
    destruct (loop_body_continues period l s l' s' H)
      as (s1 & l1 & s2 & l2 & s3 & s4 & E1 & E2 & E3 & E4 & E5).
    exists s1, l1, s2, l2, s3, s4. repeat (split; [assumption|]).
    apply shift_by_gap_Some in E5.
    destruct (0 <? TestRun._gap s4); [|exact E5].
    destruct E5 as [-> ->]. repeat split.
Qed.

(** *** The frame time *)

Lemma ordered_push z l x :
  StronglySorted Z.ge (z :: l) -> z <= x -> StronglySorted Z.ge (x :: z :: l).
Proof.
  intros H Hx. constructor; [assumption|].
  apply StronglySorted_inv in H. destruct H as [_ H].
  constructor; [lia|].
  eapply Forall_impl; [|exact H]. cbv beta. intros; lia.
Qed.

Lemma ordered_raise z l x :
  StronglySorted Z.ge (z :: l) -> z <= x -> StronglySorted Z.ge (x :: l).
Proof.
  intros H Hx. apply StronglySorted_inv in H. destruct H as [S H].
  constructor; [assumption|].
  eapply Forall_impl; [|exact H]. cbv beta. intros; lia.
Qed.

Lemma advances_refl (s : state) : advances s s.
Proof. split; [lia|auto]. Qed.

Lemma advances_trans (s1 s2 s3 : state) :
  advances s1 s2 -> advances s2 s3 -> advances s1 s3.
Proof. intros [A1 B1] [A2 B2]. split; [lia|auto]. Qed.

(** Closes [advances s s'] for an explicit [s']: every frame time that
    was added to the record, and the new current one, is at least the
    old current one, in order. *)
Ltac order :=
  unfold advances, ordered; reduce_goal;
  cbn [observed flat_map observed_sync app];
  split; [try lia|];
  intros;
  repeat (apply ordered_push; [|lia]);
  first [assumption | eapply ordered_raise; [eassumption|lia]].

Lemma process_advances (s : state) ok s' :
  TestRun.process chan s = Some (ok, s') -> advances s s'.
Proof.
  intros H. unfold TestRun.process in H. run_in H; order.
Qed.

Lemma sleep_until_wakeup_advances (s : state) ok s' :
  TestRun.sleep_until_wakeup chan clock s = Some (ok, s') -> advances s s'.
Proof.
  intros H. unfold TestRun.sleep_until_wakeup in H. run_in H;
    try apply Z.ltb_lt in Heqb; order.
Qed.

(** The late wakeup, rounded down to the stepping, is not negative. *)
Lemma rounded_nonneg step diff remainder rounded :
  Z.of_N step < diff ->
  Int64.rem diff (Z.of_N step) = Some remainder ->
  Int64.sub diff remainder = Some rounded ->
  0 <= rounded.
Proof.
  intros Hd Hr Hs.
  apply rem_Some in Hr. destruct Hr as [-> Hstep].
  apply sub_Some in Hs. destruct Hs as [-> _].
  pose proof (Z.rem_bound_pos diff (Z.of_N step) ltac:(lia) ltac:(lia)).
  lia.
Qed.

Lemma sleep_check_wakeup_advances (s : state) ok s' :
  TestRun.sleep_check_wakeup chan clock s = Some (ok, s') -> advances s s'.
Proof.
  intros H. unfold TestRun.sleep_check_wakeup in H. run_in H;
    repeat match goal with
      | E : (_ <? _) = true |- _ => apply Z.ltb_lt in E
      | E1 : Int64.rem ?d (Z.of_N ?n) = Some ?r,
        E2 : Int64.sub ?d ?r = Some _,
        L : Z.of_N ?n < ?d |- _ =>
          pose proof (rounded_nonneg _ _ _ _ L E1 E2); clear E1
      | E : Int64.add _ _ = Some _ |- _ =>
          apply add_Some in E; destruct E as [-> _]
      end;
    order.
Qed.

Lemma sleep_gap_advances (s : state) u s' :
  TestRun.sleep_gap chan s = Some (u, s') -> advances s s'.
Proof.
  intros H. unfold TestRun.sleep_gap in H. run_in H; order.
Qed.

(** Composition: a step that advances, followed by one that does. *)
Lemma bind_advances {A B} (m : TestRun.M A) (k : A -> TestRun.M B)
      (s : state) b s' :
  (forall a s1, m s = Some (a, s1) -> advances s s1) ->
  (forall a s1 s2, k a s1 = Some (b, s2) -> advances s1 s2) ->
  TestRun.bind m k s = Some (b, s') -> advances s s'.
Proof.
  intros Hm Hk H. apply bind_Some in H. destruct H as (a & s1 & E1 & E2).
  eapply advances_trans; eauto.
Qed.

Lemma sleep_to_now_advances (s : state) ok s' :
  TestRun.sleep_to_now chan clock s = Some (ok, s') -> advances s s'.
Proof.
  unfold TestRun.sleep_to_now. apply bind_advances.
  - intros a s1. apply sleep_until_wakeup_advances.
  - intros [|] s1 s2 H; cbn [negb] in H.
    + now apply sleep_check_wakeup_advances in H.
    + injection H as _ <-. apply advances_refl.
Qed.

Lemma sleep_advances (s : state) ok s' :
  TestRun.sleep chan clock s = Some (ok, s') -> advances s s'.
Proof.
  unfold TestRun.sleep. apply bind_advances.
  - intros a s1. apply sleep_to_now_advances.
  - intros [|] s1 s2 H; cbn [negb] in H.
    + apply bind_Some in H. destruct H as (u & s3 & E & H).
      injection H as _ <-. now apply sleep_gap_advances in E.
    + injection H as _ <-. apply advances_refl.
Qed.

Lemma period_finished_advances c period l (s : state) l' s' :
  TestRun.period_finished chan c period l s = Some (l', s') -> advances s s'.
Proof.
  intros H. unfold TestRun.period_finished in H.
  destruct c; run_in H; order.
Qed.

Lemma shift_by_gap_advances l (s : state) l' s' :
  TestRun.shift_by_gap l s = Some (l', s') -> advances s s'.
Proof.
  intros H. unfold TestRun.shift_by_gap in H. run_in H; order.
Qed.

Lemma loop_body_advances period l (s : state) r s' :
  TestRun.loop_body chan clock period l s = Some (r, s') -> advances s s'.
Proof.
  unfold TestRun.loop_body. apply bind_advances.
  { intros a s1. apply process_advances. }
  intros [|] s1 s2 H; cbn [negb] in H;
    [|injection H as _ <-; apply advances_refl].
  revert H. apply bind_advances.
  { intros a s3. apply period_finished_advances. }
  intros l1 s3 s4. apply bind_advances.
  { intros a s5. apply period_finished_advances. }
  intros l2 s5 s6. apply bind_advances.
  { intros a s7. apply sleep_advances. }
  intros [|] s7 s8 H; cbn [negb] in H;
    [|injection H as _ <-; apply advances_refl].
  apply bind_Some in H. destruct H as (l3 & s9 & E & H).
  injection H as _ <-. now apply shift_by_gap_advances in E.
Qed.

Lemma read_write_loop_advances fuel period repetitions :
  forall l (s : state) r s',
    TestRun.read_write_loop chan clock fuel period repetitions l s = Some (r, s') ->
    advances s s'.
Proof.
  induction fuel as [|fuel IH]; intros l s r s' H; simpl in H.
  - destruct (TestRun.finished l <? repetitions)%N;
      injection H as _ <-; apply advances_refl.
  - destruct (TestRun.finished l <? repetitions)%N;
      [|injection H as _ <-; apply advances_refl].
    apply bind_Some in H. destruct H as ([exit l1] & s1 & E & H).
    apply loop_body_advances in E. cbn [fst snd] in H.
    destruct exit as [b|].
    + injection H as _ <-. assumption.
    + apply IH in H. eapply advances_trans; eauto.
Qed.

Lemma memory_map_failed_advances memory_map c (s : state) r s' :
  TestRun.memory_map_failed chan memory_map c s = Some (r, s') -> advances s s'.
Proof.
  intros H. unfold TestRun.memory_map_failed in H.
  destruct memory_map, c; run_in H; order.
Qed.

Lemma check_devices_advances memory_map (s : state) r s' :
  TestRun.check_devices chan memory_map s = Some (r, s') -> advances s s'.
Proof.
  intros H. unfold TestRun.check_devices, TestRun.memory_map_failed in H.
  destruct memory_map; run_in H; order.
Qed.

Lemma prepare_buffers_advances period (s : state) r s' :
  TestRun.prepare_buffers chan period s = Some (r, s') -> advances s s'.
Proof.
  intros H. unfold TestRun.prepare_buffers, TestRun.prepare_channel in H.
  run_in H; order.
Qed.

Lemma check_rates_advances (s : state) r s' :
  TestRun.check_rates chan s = Some (r, s') -> advances s s'.
Proof.
  intros H. unfold TestRun.check_rates in H. run_in H; order.
Qed.

Lemma start_channels_advances (s : state) r s' :
  TestRun.start_channels chan clock s = Some (r, s') -> advances s s'.
Proof.
  intros H. unfold TestRun.start_channels in H. run_in H; order.
Qed.

Lemma startup_advances period memory_map (s : state) r s' :
  TestRun.startup chan period memory_map s = Some (r, s') -> advances s s'.
Proof.
  unfold TestRun.startup. apply bind_advances.
  { intros a s1. apply check_devices_advances. }
  intros [|] s1 s2 H; cbn [negb] in H;
    [|injection H as _ <-; apply advances_refl].
  apply bind_Some in H. destruct H as (l & s3 & E & H).
  injection H as _ <-. now apply prepare_buffers_advances in E.
Qed.

Lemma read_write_advances fuel period repetitions memory_map (s : state) r s' :
  TestRun.read_write chan clock fuel period repetitions memory_map s = Some (r, s') ->
  advances s s'.
Proof.
  unfold TestRun.read_write. apply bind_advances.
  { intros a s1. apply startup_advances. }
  intros [l|] s1 s2 H;
    [|injection H as _ <-; apply advances_refl].
  revert H. apply bind_advances.
  { intros a s5. apply check_rates_advances. }
  intros [|] s5 s6 H; cbn [negb] in H;
    [|injection H as _ <-; apply advances_refl].
  revert H. apply bind_advances.
  { intros a s7. apply start_channels_advances. }
  intros [|] s7 s8 H; cbn [negb] in H;
    [|injection H as _ <-; apply advances_refl].
  revert H. apply bind_advances.
  { intros a s9. apply read_write_loop_advances. }
  intros [[[|]|] l1] s9 s10 H; cbn [fst] in H;
    try (injection H as _ <-; apply advances_refl).
  run_in H; order.
Qed.

Lemma create_ordered (w : W) : ordered (TestRun.create w).
Proof.
  unfold ordered. cbn.
  constructor; [constructor; constructor|].
  constructor; [lia|constructor].
Qed.

(** C8.  The frame time of a new object is 0; neither of the two
    assignments in [sleep] lowers it, whatever the clock and the channels
    return; and in every run of [read_write], finished or not, the frame
    times passed to the channels and the current one are in order, from 0
    upward.  On a device with moderate positions [sleep] always has a
    result. *)
Theorem sync_frames_never_decrease :
  (forall w : W, TestRun._sync_frames (TestRun.create w) = 0)
  /\ (forall (s : state) ok s',
         TestRun.sleep chan clock s = Some (ok, s') ->
         TestRun._sync_frames s <= TestRun._sync_frames s')
  /\ (forall fuel period repetitions memory_map (s : state) r s',
         TestRun.read_write chan clock fuel period repetitions memory_map s
         = Some (r, s') ->
         TestRun._sync_frames s <= TestRun._sync_frames s'
         /\ (ordered s -> ordered s'))
  /\ (forall fuel period repetitions memory_map (w : W) r s',
         TestRun.read_write chan clock fuel period repetitions memory_map
                            (TestRun.create w)
         = Some (r, s') ->
         StronglySorted Z.ge
           (TestRun._sync_frames s' :: observed (TestRun.calls s') ++ [0]))
  /\ (forall s : state,
         moderate_device chan clock -> moderate (TestRun._sync_frames s) ->
         exists ok s',
           TestRun.sleep chan clock s = Some (ok, s')
           /\ TestRun._sync_frames s <= TestRun._sync_frames s').
Proof.
  split; [reflexivity|]. split; [|split; [|split]].
  - intros s ok s' H. apply sleep_advances in H. apply H.
  - intros fuel period repetitions memory_map s r s' H.
    apply read_write_advances in H. exact H.
  - intros fuel period repetitions memory_map w r s' H.
    apply read_write_advances in H. destruct H as [_ H].
    apply H, create_ordered.
  - intros s Hd Hm. destruct (sleep_defined s Hd Hm) as (ok & s' & E).
    exists ok, s'. split; [assumption|].
    apply sleep_advances in E. apply E.
Qed.

(** *** Counting completed periods *)

Ltac count :=
  unfold takes_none, completions; reduce_goal;
  cbn [filter is_take_buffer]; try reflexivity.

Lemma bind_takes_none {A B} (m : TestRun.M A) (k : A -> TestRun.M B)
      (s : state) b s' :
  (forall a s1, m s = Some (a, s1) -> takes_none s s1) ->
  (forall a s1 s2, k a s1 = Some (b, s2) -> takes_none s1 s2) ->
  TestRun.bind m k s = Some (b, s') -> takes_none s s'.
Proof.
  intros Hm Hk H. apply bind_Some in H. destruct H as (a & s1 & E1 & E2).
  unfold takes_none in *. rewrite (Hk _ _ _ E2). eauto.
Qed.

Lemma process_takes_none (s : state) ok s' :
  TestRun.process chan s = Some (ok, s') -> takes_none s s'.
Proof.
  intros H. unfold TestRun.process in H. run_in H; count.
Qed.

Lemma sleep_takes_none (s : state) ok s' :
  TestRun.sleep chan clock s = Some (ok, s') -> takes_none s s'.
Proof.
  unfold TestRun.sleep, TestRun.sleep_to_now.
  apply bind_takes_none.
  - intros a s1. apply bind_takes_none.
    + intros a1 s2 H. unfold TestRun.sleep_until_wakeup in H. run_in H; count.
    + intros [|] s2 s3 H; cbn [negb] in H;
        [unfold TestRun.sleep_check_wakeup in H|]; run_in H; count.
  - intros [|] s1 s2 H; cbn [negb] in H;
      [unfold TestRun.sleep_gap in H|]; run_in H; count.
Qed.

Lemma shift_by_gap_takes_none l (s : state) l' s' :
  TestRun.shift_by_gap l s = Some (l', s') ->
  takes_none s s' /\ TestRun.finished l' = TestRun.finished l.
Proof.
  intros H. unfold TestRun.shift_by_gap in H. run_in H; split; count.
Qed.

(** A channel that has finished its period is counted once, and its
    buffer is taken once; a channel that has not is left alone. *)
Lemma period_finished_counts c period l (s : state) l' s' :
  TestRun.period_finished chan c period l s = Some (l', s') ->
  if Channel.finished chan c (TestRun._sync_frames s) (TestRun.world s) then
    TestRun.finished l' = UInt32.add (TestRun.finished l) 1
    /\ completions (TestRun.calls s') = (completions (TestRun.calls s) + 1)%N
  else l' = l /\ s' = s.
Proof.
  intros H. unfold TestRun.period_finished in H.
  destruct c; run_in H; try (split; reflexivity);
    unfold completions; reduce_goal; cbn [filter is_take_buffer List.length];
    (split; [reflexivity|lia]).
Qed.

Lemma wrap_small n : (n < UInt32.modulus)%N -> UInt32.wrap n = n.
Proof. intros H. unfold UInt32.wrap. now apply N.mod_small. Qed.

Lemma wrap_below n : (UInt32.wrap n < UInt32.modulus)%N.
Proof. unfold UInt32.wrap. apply N.mod_lt. discriminate. Qed.

Lemma wrap_le n : (UInt32.wrap n <= n)%N.
Proof. unfold UInt32.wrap. apply N.Div0.mod_le. Qed.

Lemma wrap_add_wrap n k : UInt32.wrap (UInt32.wrap n + k) = UInt32.wrap (n + k).
Proof. unfold UInt32.wrap. apply N.Div0.add_mod_idemp_l. Qed.

(** One pass through the loop body that runs to its end completes at most
    two periods, one per channel, and counts each of them. *)
Lemma loop_body_counts period l (s : state) l' s' :
  (TestRun.finished l < UInt32.modulus)%N ->
  TestRun.loop_body chan clock period l s = Some ((None, l'), s') ->
  exists k,
    (k <= 2)%N
    /\ TestRun.finished l' = UInt32.wrap (TestRun.finished l + k)
    /\ completions (TestRun.calls s') = (completions (TestRun.calls s) + k)%N.
Proof.
  intros Hl H. unfold TestRun.loop_body in H.
  apply bind_Some in H. destruct H as (ok & s1 & P & H).
  destruct ok; cbn [negb] in H; [|discriminate H].
  apply process_takes_none in P. unfold takes_none in P.
  apply bind_Some in H. destruct H as (l1 & s2 & F1 & H).
  apply bind_Some in H. destruct H as (l2 & s3 & F2 & H).
  apply bind_Some in H. destruct H as (ok & s4 & S & H).
  destruct ok; cbn [negb] in H; [|discriminate H].
  apply sleep_takes_none in S. unfold takes_none in S.
  apply bind_Some in H. destruct H as (l3 & s5 & G & H).
  injection H as <- <-.
  apply shift_by_gap_takes_none in G. destruct G as [G1 G2].
  unfold takes_none in G1. rewrite G1, G2, S.
  apply period_finished_counts in F1, F2.
  destruct (Channel.finished chan ChIn _ _);
    destruct (Channel.finished chan ChOut _ _).
  - destruct F1 as [A1 B1], F2 as [A2 B2]. exists 2%N.
    rewrite A2, A1, B2, B1, P. unfold UInt32.add.
    rewrite !wrap_add_wrap. split; [lia|]. split; [f_equal|]; lia.
  - destruct F1 as [A1 B1], F2 as [-> ->]. exists 1%N.
    rewrite A1, B1, P. unfold UInt32.add.
    split; [lia|]. split; reflexivity.
  - destruct F1 as [-> ->], F2 as [A2 B2]. exists 1%N.
    rewrite A2, B2, P. unfold UInt32.add.
    split; [lia|]. split; reflexivity.
  - destruct F1 as [-> ->], F2 as [-> ->]. exists 0%N.
    rewrite P, !N.add_0_r, wrap_small by assumption.
    split; [lia|]. split; reflexivity.
Qed.

Lemma read_write_loop_counts fuel period repetitions :
  forall l (s : state) l' s',
    (TestRun.finished l < UInt32.modulus)%N ->
    TestRun.read_write_loop chan clock fuel period repetitions l s
    = Some ((Some true, l'), s') ->
    (repetitions <= TestRun.finished l')%N
    /\ (TestRun.finished l' <= N.max (TestRun.finished l) (repetitions + 1))%N
    /\ exists k,
         TestRun.finished l' = UInt32.wrap (TestRun.finished l + k)
         /\ completions (TestRun.calls s')
            = (completions (TestRun.calls s) + k)%N.
Proof.
  induction fuel as [|fuel IH]; intros l s l' s' Hl H; simpl in H.
  - destruct (N.ltb_spec (TestRun.finished l) repetitions);
      [discriminate H|].
    injection H as <- <-. split; [assumption|]. split; [lia|].
    exists 0%N. rewrite !N.add_0_r, wrap_small by assumption. auto.
  - destruct (N.ltb_spec (TestRun.finished l) repetitions).
    + apply bind_Some in H. destruct H as ([exit l1] & s1 & E & H).
      cbn [fst snd] in H. destruct exit as [b|].
      * injection H as -> <- <-.
        unfold TestRun.loop_body in E.
        apply bind_Some in E. destruct E as ([|] & s2 & _ & E);
          cbn [negb] in E; [|discriminate E].
        apply bind_Some in E. destruct E as (l2 & s3 & _ & E).
        apply bind_Some in E. destruct E as (l3 & s4 & _ & E).
        apply bind_Some in E. destruct E as ([|] & s5 & _ & E);
          cbn [negb] in E; [|discriminate E].
        apply bind_Some in E. destruct E as (l4 & s6 & _ & E).
        discriminate E.
      * destruct (loop_body_counts period l s l1 s1 Hl E)
          as (k1 & K1 & F1 & C1).
        assert (Hl1 : (TestRun.finished l1 < UInt32.modulus)%N)
          by (rewrite F1; apply wrap_below).
        destruct (IH l1 s1 l' s' Hl1 H) as (R & U & k2 & F2 & C2).
        pose proof (wrap_le (TestRun.finished l + k1)).
        split; [assumption|]. split; [lia|].
        exists (k1 + k2)%N. rewrite F2, F1, C2, C1, wrap_add_wrap.
        split; [f_equal|]; lia.
    + injection H as <- <-. split; [assumption|]. split; [lia|].
      exists 0%N. rewrite !N.add_0_r, wrap_small by assumption. auto.
Qed.

Lemma startup_takes_none period memory_map (s : state) r s' :
  TestRun.startup chan period memory_map s = Some (r, s') ->
  takes_none s s'
  /\ match r with Some l => TestRun.finished l = 0%N | None => True end.
Proof.
  intros H.
  unfold TestRun.startup, TestRun.check_devices, TestRun.memory_map_failed,
    TestRun.prepare_buffers, TestRun.prepare_channel in H.
  destruct memory_map; run_in H; split; count.
Qed.

Lemma read_write_takes fuel period repetitions memory_map (s s' : state) :
  TestRun.read_write chan clock fuel period repetitions memory_map s
  = Some (Some true, s') ->
  exists k,
    completions (TestRun.calls s') = (completions (TestRun.calls s) + k)%N
    /\ (repetitions <= UInt32.wrap k <= repetitions + 1)%N.
Proof.
  intros H. unfold TestRun.read_write in H.
  apply bind_Some in H. destruct H as (started & s1 & S & H).
  apply startup_takes_none in S. destruct S as [S0 S1].
  destruct started as [l|]; [|discriminate H].
  apply bind_Some in H. destruct H as ([|] & s2 & R & H);
    cbn [negb] in H; [|discriminate H].
  assert (R0 : takes_none s1 s2)
    by (unfold TestRun.check_rates in R; run_in R; count).
  apply bind_Some in H. destruct H as ([|] & s3 & C & H);
    cbn [negb] in H; [|discriminate H].
  assert (C0 : takes_none s2 s3)
    by (unfold TestRun.start_channels in C; run_in C; count).
  apply bind_Some in H. destruct H as ([exit l'] & s4 & L & H).
  cbn [fst] in H. destruct exit as [[|]|]; try discriminate H.
  assert (U0 : takes_none s4 s') by (run_in H; count).
  apply read_write_loop_counts in L; [|rewrite S1; reflexivity].
  destruct L as (A & B & k & F & K).
  rewrite S1 in *. rewrite N.add_0_l in F.
  exists k. unfold takes_none in *. rewrite U0, K, C0, R0, S0.
  split; [reflexivity|]. rewrite <- F. lia.
Qed.

(** C5, as the code has it.  The loop runs while [repetitions] exceeds
    the one counter [finished], which goes up by one (modulo [2^32]) for
    every period one of the channels completes, that is for every buffer
    taken.  Both channels may complete in the same pass, so when the loop
    ends after starting from 0 the counter is [repetitions] or
    [repetitions + 1]; the same holds for the buffers taken during a
    whole successful [read_write]. *)
Theorem loop_ends_past_repetitions :
  (forall fuel period repetitions l (s : state) l' s',
      TestRun.finished l = 0%N ->
      TestRun.read_write_loop chan clock fuel period repetitions l s
      = Some ((Some true, l'), s') ->
      (repetitions <= TestRun.finished l' <= repetitions + 1)%N
      /\ exists k,
           TestRun.finished l' = UInt32.wrap k
           /\ completions (TestRun.calls s')
              = (completions (TestRun.calls s) + k)%N)
  /\ (forall fuel period repetitions memory_map (s s' : state),
         TestRun.read_write chan clock fuel period repetitions memory_map s
         = Some (Some true, s') ->
         exists k,
           completions (TestRun.calls s')
           = (completions (TestRun.calls s) + k)%N
           /\ (repetitions <= UInt32.wrap k <= repetitions + 1)%N).
Proof.
  split.
  - intros fuel period repetitions l s l' s' Hl H.
    apply read_write_loop_counts in H; [|rewrite Hl; reflexivity].
    destruct H as (A & B & k & F & K). rewrite Hl in *.
    rewrite N.add_0_l in F. split; [lia|]. eauto.
  - apply read_write_takes.
Qed.

(** *** Startup *)

Lemma memory_map_failed_eq memory_map c (s : state) :
  TestRun.memory_map_failed chan memory_map c s
  = Some (if memory_map && Channel.can_memory_map chan c (TestRun.world s)
          then (negb (fst (Channel.memory_map chan c (TestRun.world s))),
                called (MemoryMap c)
                       (snd (Channel.memory_map chan c (TestRun.world s))) s)
          else (false, s)).
Proof.
  unfold TestRun.memory_map_failed.
  cbv beta delta [TestRun.bind TestRun.ret TestRun.query TestRun.call].
  destruct memory_map; cbn [andb]; [|reflexivity].
  destruct (Channel.can_memory_map chan c (TestRun.world s)); [|reflexivity].
  destruct (Channel.memory_map chan c (TestRun.world s)) as [ok w].
  reflexivity.
Qed.

Lemma check_devices_unmappable (s : state) :
  Channel.can_memory_map chan ChIn (TestRun.world s) = false ->
  Channel.can_memory_map chan ChOut (TestRun.world s) = false ->
  TestRun.check_devices chan true s = TestRun.check_devices chan false s.
Proof.
  intros Hi Ho. unfold TestRun.check_devices.
  cbv beta iota delta [TestRun.bind TestRun.ret TestRun.query TestRun.emit].
  destruct (negb (Channel.recording chan ChIn (TestRun.world s)));
    cbv beta iota; [reflexivity|].
  destruct (negb (Channel.playback chan ChOut (TestRun.world s)));
    cbv beta iota; [reflexivity|].
  rewrite !memory_map_failed_eq, Hi. cbn [andb]. cbv beta iota.
  rewrite !memory_map_failed_eq, Ho. reflexivity.
Qed.

(** C10.  With memory mapping requested, a channel that does not
    advertise it is left as it is and passes the check; the check fails
    for a channel only when mapping was requested, the channel advertises
    it and its [memory_map()] returns false.  When neither channel
    advertises it, the whole run is the run without the request. *)
Theorem memory_map_unsupported_continues :
  (forall c (s : state),
      Channel.can_memory_map chan c (TestRun.world s) = false ->
      TestRun.memory_map_failed chan true c s = Some (false, s))
  /\ (forall memory_map c (s : state) s',
         TestRun.memory_map_failed chan memory_map c s = Some (true, s') ->
         memory_map = true
         /\ Channel.can_memory_map chan c (TestRun.world s) = true
         /\ fst (Channel.memory_map chan c (TestRun.world s)) = false)
  /\ (forall memory_map (s : state) s',
         Channel.recording chan ChIn (TestRun.world s) = true ->
         Channel.playback chan ChOut (TestRun.world s) = true ->
         TestRun.check_devices chan memory_map s = Some (false, s') ->
         exists c s1 s2,
           TestRun.memory_map_failed chan memory_map c s1 = Some (true, s2)
           /\ TestRun.world s' = TestRun.world s2)
  /\ (forall fuel period repetitions (s : state),
         Channel.can_memory_map chan ChIn (TestRun.world s) = false ->
         Channel.can_memory_map chan ChOut (TestRun.world s) = false ->
         TestRun.read_write chan clock fuel period repetitions true s
         = TestRun.read_write chan clock fuel period repetitions false s).
Proof.
  split; [|split; [|split]].
  - intros c s H. rewrite memory_map_failed_eq, H. reflexivity.
  - intros memory_map c s s' H. rewrite memory_map_failed_eq in H.
    destruct memory_map; cbn [andb] in H; [|discriminate H].
    destruct (Channel.can_memory_map chan c (TestRun.world s));
      [|discriminate H].
    injection H as H _.
    destruct (fst (Channel.memory_map chan c (TestRun.world s)));
      [discriminate H|auto].
  - intros memory_map s s' Hr Hp H. unfold TestRun.check_devices in H.
    apply bind_Some in H. destruct H as (rec & s0 & E & H).
    injection E as <- <-. rewrite Hr in H. cbn [negb] in H.
    apply bind_Some in H. destruct H as (play & s0 & E & H).
    injection E as <- <-. rewrite Hp in H. cbn [negb] in H.
    apply bind_Some in H. destruct H as (failed_in & s1 & E1 & H).
    destruct failed_in.
    + exists ChIn, s, s1. split; [assumption|]. run_in H. reflexivity.
    + apply bind_Some in H. destruct H as (failed_out & s2 & E2 & H).
      destruct failed_out; [|discriminate H].
      exists ChOut, s1, s2. split; [assumption|]. run_in H. reflexivity.
  - intros fuel period repetitions s Hi Ho.
    unfold TestRun.read_write, TestRun.startup.
    unfold TestRun.bind at 1 2. symmetry. unfold TestRun.bind at 1 2.
    now rewrite check_devices_unmappable.
Qed.

(** The comparison of line 82 has the same channel on both sides: the
    outcome of the check is the comparison of the sample rates alone. *)
Lemma check_rates_eq (s : state) :
  TestRun.check_rates chan s
  = Some (let agree := (Channel.sample_rate chan ChIn (TestRun.world s)
                        =? Channel.sample_rate chan ChOut (TestRun.world s))%N in
          (agree,
           called (if agree then Info "Step of %u is %lld ns."
                   else Warn "Recording sample rate %u vs playback %u.")
                  (TestRun.world s) s)).
Proof.
  unfold TestRun.check_rates.
  cbv beta iota delta [TestRun.bind TestRun.ret TestRun.query TestRun.emit].
  rewrite N.eqb_refl. cbn [negb orb].
  destruct (_ =? _)%N; reflexivity.
Qed.

Lemma double_period period :
  (period < UInt32.modulus)%N ->
  Int64.add (Z.of_N period) (Z.of_N period)
  = Some (Z.of_N period + Z.of_N period).
Proof.
  intros H. apply add_in.
  assert (Z.of_N period < 2 ^ 32).
  { change (2 ^ 32) with (Z.of_N UInt32.modulus). lia. }
  change Int64.min_int with (-9223372036854775808).
  change Int64.max_int with 9223372036854775807.
  change (2 ^ 32) with 4294967296 in *. lia.
Qed.

Lemma check_devices_total memory_map (s : state) :
  exists ok s', TestRun.check_devices chan memory_map s = Some (ok, s')
                /\ enqueued (TestRun.calls s') = enqueued (TestRun.calls s).
Proof.
  destruct (TestRun.check_devices chan memory_map s) as [[ok s']|] eqn:E.
  - exists ok, s'. split; [reflexivity|].
    unfold TestRun.check_devices, TestRun.memory_map_failed in E.
    destruct memory_map; run_in E; reflexivity.
  - exfalso.
    unfold TestRun.check_devices, TestRun.memory_map_failed in E.
    destruct memory_map; run_in E.
Qed.

Lemma prepare_buffers_total period (s : state) :
  (period < UInt32.modulus)%N ->
  exists l s' in_buffer out_buffer,
    TestRun.prepare_buffers chan period s = Some (l, s')
    /\ enqueued (TestRun.calls s')
       = [SetBuffer ChOut out_buffer (Z.of_N period + Z.of_N period);
          SetBuffer ChOut out_buffer (Z.of_N period);
          SetBuffer ChIn in_buffer (Z.of_N period + Z.of_N period);
          SetBuffer ChIn in_buffer (Z.of_N period)]
         ++ enqueued (TestRun.calls s).
Proof.
  intros Hp. pose proof (double_period period Hp) as D.
  destruct (TestRun.prepare_buffers chan period s) as [[l s']|] eqn:E.
  - exists l, s'.
    unfold TestRun.prepare_buffers, TestRun.prepare_channel in E.
    run_in E. injection D as ->.
    do 2 eexists. split; reflexivity.
  - exfalso.
    unfold TestRun.prepare_buffers, TestRun.prepare_channel in E.
    run_in E; congruence.
Qed.

(** C1, as the code has it.  The modes and the memory mapping are checked
    first; if one of these checks fails, [read_write] returns false and
    no buffer has been enqueued.  Otherwise two buffers are enqueued on
    each channel, for the end positions [period] and [2 * period], and
    only then are the sample rates compared: if they differ,
    [read_write] returns false after the warning, with these four
    buffers enqueued and nothing else done. *)
Theorem rate_mismatch_returns_false fuel period repetitions memory_map (s : state) :
  (period < UInt32.modulus)%N ->
  exists started s1,
    TestRun.startup chan period memory_map s = Some (started, s1)
    /\ match started with
       | None =>
           TestRun.read_write chan clock fuel period repetitions memory_map s
           = Some (Some false, s1)
           /\ enqueued (TestRun.calls s1) = enqueued (TestRun.calls s)
       | Some l =>
           (exists in_buffer out_buffer,
               enqueued (TestRun.calls s1)
               = [SetBuffer ChOut out_buffer (Z.of_N period + Z.of_N period);
                  SetBuffer ChOut out_buffer (Z.of_N period);
                  SetBuffer ChIn in_buffer (Z.of_N period + Z.of_N period);
                  SetBuffer ChIn in_buffer (Z.of_N period)]
                 ++ enqueued (TestRun.calls s))
           /\ (Channel.sample_rate chan ChIn (TestRun.world s1)
               <> Channel.sample_rate chan ChOut (TestRun.world s1) ->
               TestRun.read_write chan clock fuel period repetitions memory_map s
               = Some (Some false,
                       called (Warn "Recording sample rate %u vs playback %u.")
                              (TestRun.world s1) s1))
       end.
Proof.
  intros Hp.
  destruct (check_devices_total memory_map s) as (ok & s0 & E0 & Q0).
  unfold TestRun.read_write, TestRun.startup.
  unfold TestRun.bind at 1. rewrite E0.
  destruct ok; cbn [negb].
  - destruct (prepare_buffers_total period s0 Hp)
      as (l & s1 & bi & bo & E1 & Q1).
    exists (Some l), s1. unfold TestRun.bind at 1. rewrite E1.
    split; [reflexivity|]. split.
    + exists bi, bo. rewrite Q1, Q0. reflexivity.
    + intros Hr. unfold TestRun.bind at 1 2. rewrite E0. cbn [negb].
      unfold TestRun.bind at 1. rewrite E1.
      unfold TestRun.ret at 1. unfold TestRun.bind at 1.
      rewrite check_rates_eq. cbv zeta.
      apply N.eqb_neq in Hr. rewrite Hr. reflexivity.
  - exists None, s0. split; [reflexivity|]. split; [|assumption].
    unfold TestRun.bind at 1 2. rewrite E0. reflexivity.
Qed.





(** *** Composition of the steps

    A relation between the object before and after a step that is
    reflexive and transitive holds over the parts of the driver once it
    holds for their steps. *)

Section Transport.

Variable R : state -> state -> Prop.
Hypothesis R_refl : forall s, R s s.
Hypothesis R_trans : forall s1 s2 s3, R s1 s2 -> R s2 s3 -> R s1 s3.

Lemma bind_keeps {A B} (m : TestRun.M A) (k : A -> TestRun.M B)
      (s : state) b s' :
  (forall a s1, m s = Some (a, s1) -> R s s1) ->
  (forall a s1 s2, k a s1 = Some (b, s2) -> R s1 s2) ->
  TestRun.bind m k s = Some (b, s') -> R s s'.
Proof.
  intros Hm Hk H. apply bind_Some in H. destruct H as (a & s1 & E1 & E2).
  eapply R_trans; eauto.
Qed.

Lemma sleep_keeps :
  (forall s ok s', TestRun.sleep_until_wakeup chan clock s = Some (ok, s') -> R s s') ->
  (forall s ok s', TestRun.sleep_check_wakeup chan clock s = Some (ok, s') -> R s s') ->
  (forall s u s', TestRun.sleep_gap chan s = Some (u, s') -> R s s') ->
  forall s ok s', TestRun.sleep chan clock s = Some (ok, s') -> R s s'.
Proof.
  intros H1 H2 H3 s ok s'. unfold TestRun.sleep, TestRun.sleep_to_now.
  apply bind_keeps.
  - intros a s1. apply bind_keeps.
    + intros a1 s2. apply H1.
    + intros [|] s2 s3 H; cbn [negb] in H.
      * now apply H2 in H.
      * injection H as _ <-. apply R_refl.
  - intros [|] s1 s2 H; cbn [negb] in H.
    + apply bind_Some in H. destruct H as (u & s3 & E & H).
      injection H as _ <-. now apply H3 in E.
    + injection H as _ <-. apply R_refl.
Qed.

Lemma loop_body_keeps :
  (forall s ok s', TestRun.process chan s = Some (ok, s') -> R s s') ->
  (forall c period l s l' s',
      TestRun.period_finished chan c period l s = Some (l', s') -> R s s') ->
  (forall s ok s', TestRun.sleep chan clock s = Some (ok, s') -> R s s') ->
  (forall l s l' s', TestRun.shift_by_gap l s = Some (l', s') -> R s s') ->
  forall period l s r s',
    TestRun.loop_body chan clock period l s = Some (r, s') -> R s s'.
Proof.
  intros H1 H2 H3 H4 period l s r s'.
  unfold TestRun.loop_body. apply bind_keeps.
  { intros a s1. apply H1. }
  intros [|] s1 s2 H; cbn [negb] in H;
    [|injection H as _ <-; apply R_refl].
  revert H. apply bind_keeps.
  { intros a s3. apply H2. }
  intros l1 s3 s4. apply bind_keeps.
  { intros a s5. apply H2. }
  intros l2 s5 s6. apply bind_keeps.
  { intros a s7. apply H3. }
  intros [|] s7 s8 H; cbn [negb] in H;
    [|injection H as _ <-; apply R_refl].
  apply bind_Some in H. destruct H as (l3 & s9 & E & H).
  injection H as _ <-. now apply H4 in E.
Qed.

Lemma read_write_loop_keeps :
  (forall period l s r s',
      TestRun.loop_body chan clock period l s = Some (r, s') -> R s s') ->
  forall fuel period repetitions l s r s',
    TestRun.read_write_loop chan clock fuel period repetitions l s = Some (r, s') ->
    R s s'.
Proof.
  intros Hb fuel period repetitions.
  induction fuel as [|fuel IH]; intros l s r s' H; simpl in H.
  - destruct (TestRun.finished l <? repetitions)%N;
      injection H as _ <-; apply R_refl.
  - destruct (TestRun.finished l <? repetitions)%N;
      [|injection H as _ <-; apply R_refl].
    apply bind_Some in H. destruct H as ([exit l1] & s1 & E & H).
    apply Hb in E. cbn [fst snd] in H.
    destruct exit as [b|].
    + injection H as _ <-. assumption.
    + apply IH in H. eapply R_trans; eauto.
Qed.

End Transport.

(** The ways through [read_write]: which of its parts ran, and what the
    method returned. *)
Lemma read_write_Some fuel period repetitions memory_map (s : state) r s' :
  TestRun.read_write chan clock fuel period repetitions memory_map s = Some (r, s') ->
  exists started s1,
    TestRun.startup chan period memory_map s = Some (started, s1)
    /\ match started with
       | None => r = Some false /\ s' = s1
       | Some l =>
           exists same s2,
             TestRun.check_rates chan s1 = Some (same, s2)
             /\ if same then
                  exists ok s3,
                    TestRun.start_channels chan clock s2 = Some (ok, s3)
                    /\ if ok then
                         exists exit l' s4,
                           TestRun.read_write_loop chan clock fuel period
                                                   repetitions l s3
                           = Some ((exit, l'), s4)
                           /\ match exit with
                              | Some true => r = Some true /\ s' = unmapped chan s4
                              | other => r = other /\ s' = s4
                              end
                       else r = Some false /\ s' = s3
                else r = Some false /\ s' = s2
       end.
Proof.
  intros H. unfold TestRun.read_write in H.
  apply bind_Some in H. destruct H as (started & s1 & E1 & H).
  exists started, s1. split; [exact E1|].
  destruct started as [l|]; [|injection H as <- <-; auto].
  apply bind_Some in H. destruct H as (same & s2 & E2 & H).
  exists same, s2. split; [exact E2|].
  destruct same; cbn [negb] in H; [|injection H as <- <-; auto].
  apply bind_Some in H. destruct H as (ok & s3 & E3 & H).
  exists ok, s3. split; [exact E3|].
  destruct ok; cbn [negb] in H; [|injection H as <- <-; auto].
  apply bind_Some in H. destruct H as ([exit l'] & s4 & E4 & H).
  exists exit, l', s4. split; [exact E4|].
  cbn [fst] in H. destruct exit as [[|]|];
    try (injection H as <- <-; auto).
  unfold unmapped, called. run_in H. cbn [snd]. rewrite Heqp0.
  split; reflexivity.
Qed.

(** Takes apart a step of the driver that has a result. *)
Ltac step_in H :=
  lazymatch type of H with
  | TestRun.process _ _ = _ => unfold TestRun.process in H; run_in H
  | TestRun.period_finished _ ?c _ _ _ = _ =>
      unfold TestRun.period_finished in H; destruct c; run_in H
  | TestRun.sleep_until_wakeup _ _ _ = _ =>
      unfold TestRun.sleep_until_wakeup in H; run_in H
  | TestRun.sleep_check_wakeup _ _ _ = _ =>
      unfold TestRun.sleep_check_wakeup in H; run_in H
  | TestRun.sleep_gap _ _ = _ => unfold TestRun.sleep_gap in H; run_in H
  | TestRun.shift_by_gap _ _ = _ => unfold TestRun.shift_by_gap in H; run_in H
  | TestRun.check_devices _ ?m _ = _ =>
      unfold TestRun.check_devices, TestRun.memory_map_failed in H;
      destruct m; run_in H
  | TestRun.prepare_buffers _ _ _ = _ =>
      unfold TestRun.prepare_buffers, TestRun.prepare_channel in H; run_in H
  | TestRun.check_rates _ _ = _ => unfold TestRun.check_rates in H; run_in H
  | TestRun.start_channels _ _ _ = _ =>
      unfold TestRun.start_channels in H; run_in H
  end.

(** *** Failed preconditions *)

(** X5.  A recording channel that is not opened for recording, or
    otherwise a playback channel that is not opened for playback, ends
    [read_write] with false after the warning of line 48 or 52: no method
    of the devices that acts has been called, the world and the members
    of the object are as before. *)
Theorem wrong_mode_returns_false fuel period repetitions memory_map (s : state) :
  (Channel.recording chan ChIn (TestRun.world s) = false ->
   TestRun.read_write chan clock fuel period repetitions memory_map s
   = Some (Some false,
           called (Warn "In device not in recording mode.") (TestRun.world s) s))
  /\ (Channel.recording chan ChIn (TestRun.world s) = true ->
      Channel.playback chan ChOut (TestRun.world s) = false ->
      TestRun.read_write chan clock fuel period repetitions memory_map s
      = Some (Some false,
              called (Warn "Out device not in playback mode.") (TestRun.world s) s)).
Proof.
  split.
  - intros Hr.
    unfold TestRun.read_write, TestRun.startup, TestRun.check_devices.
    cbv beta iota delta [TestRun.bind TestRun.ret TestRun.query TestRun.emit].
    rewrite Hr. reflexivity.
  - intros Hr Hp.
    unfold TestRun.read_write, TestRun.startup, TestRun.check_devices.
    cbv beta iota delta [TestRun.bind TestRun.ret TestRun.query TestRun.emit].
    rewrite Hr. cbn [negb]. cbv beta iota. rewrite Hp. reflexivity.
Qed.

(** *** The late wakeup *)

(** X6.  The correction of a late wakeup, lines 193-205.  When the clock
    has told the time and the check has a result, the frame time has
    moved forward by a whole number of steps of the recording channel,
    it is at most one step behind the clock, and it has not passed the
    clock unless it was ahead of it before.  A frame time more than a
    step behind the clock ends less than a step behind it; one that is
    at most a step behind is left as it is. *)
Theorem late_wakeup_rounded_to_steps (s s' : state) :
  TestRun.sleep_check_wakeup chan clock s = Some (true, s') ->
  let now := snd (fst (FrameClock.now clock (TestRun.world s))) in
  let step :=
    Z.of_N (Channel.stepping chan ChIn
              (snd (FrameClock.now clock (TestRun.world s)))) in
  (exists k, 0 <= k /\ TestRun._sync_frames s' = TestRun._sync_frames s + k * step)
  /\ now - TestRun._sync_frames s' <= step
  /\ TestRun._sync_frames s' <= Z.max (TestRun._sync_frames s) now
  /\ (step < now - TestRun._sync_frames s ->
      0 <= now - TestRun._sync_frames s' < step)
  /\ (now - TestRun._sync_frames s <= step ->
      TestRun._sync_frames s' = TestRun._sync_frames s).
Proof.
  intros H now step. subst now step.
  unfold TestRun.sleep_check_wakeup in H. run_in H;
    reduce_goal; checked_values.
  - match goal with
    | |- context [Z.rem ?d ?st] =>
        pose proof (Z.rem_bound_pos d st ltac:(lia) ltac:(lia)) as Hrem;
        pose proof (Z.quot_rem' d st) as Hq;
        assert (0 <= Z.quot d st) by (apply Z.quot_pos; lia);
        split; [exists (Z.quot d st); split; [assumption|lia] | lia]
    end.
  - split; [exists 0; lia|]. lia.
Qed.

(** X7.  After a call of [sleep] that succeeds, the frame time is not
    before the earlier of the two channels' wakeup times that the call
    started with: the pass after it finds a channel due, so that the loop
    does not spin on the same frame time.  When that wakeup time is
    already reached at the call, the clock is not asked to sleep at all:
    the call is the check of the wakeup time and the gap alone. *)
Theorem sleep_reaches_wakeup (s : state) :
  (forall s', TestRun.sleep chan clock s = Some (true, s') ->
              Z.max (TestRun._sync_frames s) (next_wakeup chan s)
              <= TestRun._sync_frames s')
  /\ (next_wakeup chan s <= TestRun._sync_frames s ->
      TestRun.sleep chan clock s
      = TestRun.bind (TestRun.sleep_check_wakeup chan clock)
          (fun awake =>
             if negb awake then TestRun.ret false
             else TestRun.bind (TestRun.sleep_gap chan)
                               (fun _ => TestRun.ret true)) s).
Proof.
  split.
  - intros s' H. apply sleep_Some in H. destruct H as (s2 & E & G).
    apply sleep_gap_Some in G. cbv zeta in G. destruct G as [G _].
    rewrite G. clear G s'.
    unfold TestRun.sleep_to_now in E.
    apply bind_Some in E. destruct E as (slept & s1 & E1 & E2).
    destruct slept; cbn [negb] in E2; [|discriminate E2].
    apply sleep_check_wakeup_advances in E2. destruct E2 as [E2 _].
    assert (Z.max (TestRun._sync_frames s) (next_wakeup chan s)
            <= TestRun._sync_frames s1); [|lia].
    unfold next_wakeup. unfold TestRun.sleep_until_wakeup in E1.
    run_in E1; reduce_goal;
      repeat match goal with
        | E : (_ <? _) = true |- _ => apply Z.ltb_lt in E
        | E : (_ <? _) = false |- _ => apply Z.ltb_ge in E
        end; lia.
  - intros H. unfold TestRun.sleep, TestRun.sleep_to_now.
    unfold TestRun.bind at 1 2. rewrite (sleep_until_wakeup_now s H).
    cbn [negb]. reflexivity.
Qed.

Lemma startup_Some period memory_map (s : state) started s1 :
  TestRun.startup chan period memory_map s = Some (started, s1) ->
  exists ok s0,
    TestRun.check_devices chan memory_map s = Some (ok, s0)
    /\ if ok then
         exists l, TestRun.prepare_buffers chan period s0 = Some (l, s1)
                   /\ started = Some l
       else started = None /\ s1 = s0.
Proof.
  intros H. unfold TestRun.startup in H.
  apply bind_Some in H. destruct H as (ok & s0 & E0 & H).
  exists ok, s0. split; [exact E0|].
  destruct ok; cbn [negb] in H; [|injection H as <- <-; auto].
  apply bind_Some in H. destruct H as (l & s2 & E1 & H).
  injection H as <- <-. eauto.
Qed.

(** *** The gap between the passes *)

Lemma loop_body_gap period l (s : state) exit l' s' :
  TestRun.loop_body chan clock period l s = Some ((exit, l'), s') ->
  match exit with
  | None => TestRun._gap s' = 0
  | Some _ => TestRun._gap s' = TestRun._gap s
  end.
Proof.
  intros H. unfold TestRun.loop_body in H.
  apply bind_Some in H. destruct H as (ok & s1 & E1 & H).
  assert (G1 : TestRun._gap s1 = TestRun._gap s)
    by (step_in E1; reflexivity).
  destruct ok; cbn [negb] in H; [|injection H as <- _ <-; exact G1].
  apply bind_Some in H. destruct H as (l1 & s2 & E2 & H).
  assert (G2 : TestRun._gap s2 = TestRun._gap s1)
    by (step_in E2; reflexivity).
  apply bind_Some in H. destruct H as (l2 & s3 & E3 & H).
  assert (G3 : TestRun._gap s3 = TestRun._gap s2)
    by (step_in E3; reflexivity).
  apply bind_Some in H. destruct H as (ok & s4 & E4 & H).
  destruct ok; cbn [negb] in H.
  - apply bind_Some in H. destruct H as (l3 & s5 & E5 & H).
    injection H as <- <- <-.
    apply sleep_Some in E4. destruct E4 as (s6 & _ & E4).
    apply sleep_gap_Some in E4. cbv zeta in E4. destruct E4 as [_ E4].
    apply shift_by_gap_Some in E5.
    destruct (Z.ltb_spec 0 (TestRun._gap s4)).
    + destruct E5 as [_ ->]. reflexivity.
    + destruct E5 as [_ ->].
      destruct (Z.ltb_spec 1024 (gap_behind (TestRun._sync_frames s6)
                  (Channel.period_end chan ChIn (TestRun.world s6))
                  (Channel.period_end chan ChOut (TestRun.world s6))));
        destruct E4 as (E4 & _); lia.
  - injection H as <- _ <-.
    unfold TestRun.sleep, TestRun.sleep_to_now in E4.
    apply bind_Some in E4. destruct E4 as (awake & s5 & E4 & H).
    destruct awake; cbn [negb] in H.
    + apply bind_Some in H. destruct H as (u & s6 & _ & H). discriminate H.
    + injection H as <-.
      apply bind_Some in E4. destruct E4 as (slept & s6 & E4 & H).
      assert (G4 : TestRun._gap s6 = TestRun._gap s3)
        by (step_in E4; reflexivity).
      destruct slept; cbn [negb] in H.
      * assert (G5 : TestRun._gap s5 = TestRun._gap s6)
          by (step_in H; reflexivity).
        congruence.
      * injection H as <-. congruence.
Qed.

Lemma read_write_keeps_no_gap fuel period repetitions memory_map (s : state) r s' :
  TestRun.read_write chan clock fuel period repetitions memory_map s = Some (r, s') ->
  keeps_no_gap s s'.
Proof.
  intros H. apply read_write_Some in H.
  destruct H as (started & s1 & E1 & H).
  assert (G1 : TestRun._gap s1 = TestRun._gap s).
  { apply startup_Some in E1. destruct E1 as (ok & s0 & E0 & E1).
    assert (G0 : TestRun._gap s0 = TestRun._gap s)
      by (step_in E0; reflexivity).
    destruct ok.
    - destruct E1 as (l & E1 & _). rewrite <- G0.
      step_in E1; reflexivity.
    - destruct E1 as [_ ->]. exact G0. }
  unfold keeps_no_gap. intros Z0.
  destruct started as [l|]; [|destruct H as [_ ->]; congruence].
  destruct H as (same & s2 & E2 & H).
  assert (G2 : TestRun._gap s2 = TestRun._gap s1)
    by (step_in E2; reflexivity).
  destruct same; [|destruct H as [_ ->]; congruence].
  destruct H as (ok & s3 & E3 & H).
  assert (G3 : TestRun._gap s3 = TestRun._gap s2)
    by (step_in E3; reflexivity).
  destruct ok; [|destruct H as [_ ->]; congruence].
  destruct H as (exit & l' & s4 & E4 & H).
  assert (G4 : TestRun._gap s4 = 0).
  { apply (read_write_loop_keeps keeps_no_gap) in E4.
    - apply E4. congruence.
    - unfold keeps_no_gap. auto.
    - unfold keeps_no_gap. auto.
    - intros p l0 s5 [e l1] s6 B. apply loop_body_gap in B.
      unfold keeps_no_gap. destruct e; lia. }
  destruct exit as [[|]|]; destruct H as [_ ->]; exact G4.
Qed.

(** X8.  The gap is a message from [sleep] to the loop and does not
    outlive the pass: a call of [sleep] that succeeds leaves a gap of 0
    or a gap of more than 1024 frames; a call that fails leaves the gap
    as it was; a pass through the body of the loop that reaches its end
    leaves a gap of 0; and [read_write] called with a gap of 0 (as in a
    new object) returns with a gap of 0, whatever it returns. *)
Theorem gap_is_transient :
  (forall s s' : state,
      TestRun.sleep chan clock s = Some (true, s') ->
      TestRun._gap s' = 0 \/ 1024 < TestRun._gap s')
  /\ (forall period l (s : state) exit l' s',
         TestRun.loop_body chan clock period l s = Some ((exit, l'), s') ->
         match exit with
         | None => TestRun._gap s' = 0
         | Some _ => TestRun._gap s' = TestRun._gap s
         end)
  /\ (forall fuel period repetitions memory_map (s : state) r s',
         TestRun._gap s = 0 ->
         TestRun.read_write chan clock fuel period repetitions memory_map s
         = Some (r, s') ->
         TestRun._gap s' = 0).
Proof.
  split; [|split].
  - intros s s' H. apply sleep_Some in H. destruct H as (s1 & _ & H).
    apply sleep_gap_Some in H. cbv zeta in H. destruct H as [_ H].
    destruct (Z.ltb_spec 1024 (gap_behind (TestRun._sync_frames s1)
                (Channel.period_end chan ChIn (TestRun.world s1))
                (Channel.period_end chan ChOut (TestRun.world s1))));
      destruct H as (H & _); [right|left]; lia.
  - apply loop_body_gap.
  - intros fuel period repetitions memory_map s r s' Z0 H.
    apply read_write_keeps_no_gap in H. apply H, Z0.
Qed.

(** *** The end of a run *)

Ltac open_still :=
  unfold keeps_open, teardown; reduce_goal;
  cbn [filter is_teardown]; reflexivity.

Lemma keeps_open_refl (s : state) : keeps_open s s.
Proof. reflexivity. Qed.

Lemma keeps_open_trans (s1 s2 s3 : state) :
  keeps_open s1 s2 -> keeps_open s2 s3 -> keeps_open s1 s3.
Proof. unfold keeps_open. congruence. Qed.

Lemma read_write_loop_keeps_open fuel period repetitions l (s : state) r s' :
  TestRun.read_write_loop chan clock fuel period repetitions l s = Some (r, s') ->
  keeps_open s s'.
Proof.
  apply (read_write_loop_keeps keeps_open keeps_open_refl keeps_open_trans).
  apply (loop_body_keeps keeps_open keeps_open_refl keeps_open_trans).
  - intros s0 ok s1 H. step_in H; open_still.
  - intros c p l0 s0 l1 s1 H. step_in H; open_still.
  - apply (sleep_keeps keeps_open keeps_open_refl keeps_open_trans).
    + intros s0 ok s1 H. step_in H; open_still.
    + intros s0 ok s1 H. step_in H; open_still.
    + intros s0 ok s1 H. step_in H; open_still.
  - intros l0 s0 l1 s1 H. step_in H; open_still.
Qed.

Lemma startup_keeps_open period memory_map (s : state) started s1 :
  TestRun.startup chan period memory_map s = Some (started, s1) ->
  keeps_open s s1.
Proof.
  intros H. apply startup_Some in H. destruct H as (ok & s0 & E0 & H).
  assert (K0 : keeps_open s s0) by (step_in E0; open_still).
  destruct ok.
  - destruct H as (l & E1 & _).
    apply (keeps_open_trans _ _ _ K0). step_in E1; open_still.
  - destruct H as [_ ->]. exact K0.
Qed.

(** X9.  [read_write] never closes a channel, and it ends the memory
    mapping exactly when it returns true: then the last two calls of the
    run are [memory_unmap] on the recording and on the playback channel,
    in this order and whether or not a channel was mapped, and they are
    the only ones.  When it returns false, and as long as the loop runs,
    no channel has been unmapped: a channel that the run has mapped is
    left mapped by every failure. *)
Theorem unmaps_on_success_only fuel period repetitions memory_map (s : state) r s' :
  TestRun.read_write chan clock fuel period repetitions memory_map s = Some (r, s') ->
  match r with
  | Some true =>
      exists s4,
        s' = unmapped chan s4
        /\ TestRun.calls s'
           = MemoryUnmap ChOut :: MemoryUnmap ChIn :: TestRun.calls s4
        /\ teardown (TestRun.calls s4) = teardown (TestRun.calls s)
  | _ => teardown (TestRun.calls s') = teardown (TestRun.calls s)
  end.
Proof.
  intros H. apply read_write_Some in H.
  destruct H as (started & s1 & E1 & H).
  apply startup_keeps_open in E1.
  destruct started as [l|]; [|destruct H as [-> ->]; exact E1].
  destruct H as (same & s2 & E2 & H).
  assert (K2 : keeps_open s s2).
  { apply (keeps_open_trans _ _ _ E1). step_in E2; open_still. }
  destruct same; [|destruct H as [-> ->]; exact K2].
  destruct H as (ok & s3 & E3 & H).
  assert (K3 : keeps_open s s3).
  { apply (keeps_open_trans _ _ _ K2). step_in E3; open_still. }
  destruct ok; [|destruct H as [-> ->]; exact K3].
  destruct H as (exit & l' & s4 & E4 & H).
  apply read_write_loop_keeps_open in E4.
  pose proof (keeps_open_trans _ _ _ K3 E4) as K4.
  destruct exit as [[|]|]; destruct H as [-> ->]; try exact K4.
  exists s4. split; [reflexivity|]. split; [reflexivity|exact K4].
Qed.

(** *** Two buffers for each channel *)

Ltac slots_still c :=
  unfold keeps_slots; reduce_goal; destruct c;
  cbn [in_flight slot_change same_channel never_above];
  (split; [lia | intros; repeat split; first [assumption | lia]]).

Lemma keeps_slots_refl c (s : state) : keeps_slots c s s.
Proof. split; auto. Qed.

Lemma keeps_slots_trans c (s1 s2 s3 : state) :
  keeps_slots c s1 s2 -> keeps_slots c s2 s3 -> keeps_slots c s1 s3.
Proof.
  intros [A1 B1] [A2 B2]. split; [congruence|].
  intros bound Hb Hn. apply B2; [lia|]. now apply B1.
Qed.

Lemma read_write_loop_keeps_slots c fuel period repetitions l (s : state) r s' :
  TestRun.read_write_loop chan clock fuel period repetitions l s = Some (r, s') ->
  keeps_slots c s s'.
Proof.
  apply (read_write_loop_keeps (keeps_slots c) (keeps_slots_refl c)
           (keeps_slots_trans c)).
  apply (loop_body_keeps (keeps_slots c) (keeps_slots_refl c)
           (keeps_slots_trans c)).
  - intros s0 ok s1 H. step_in H; slots_still c.
  - intros c0 p l0 s0 l1 s1 H. step_in H; slots_still c.
  - apply (sleep_keeps (keeps_slots c) (keeps_slots_refl c)
             (keeps_slots_trans c)).
    + intros s0 ok s1 H. step_in H; slots_still c.
    + intros s0 ok s1 H. step_in H; slots_still c.
    + intros s0 ok s1 H. step_in H; slots_still c.
  - intros l0 s0 l1 s1 H. step_in H; slots_still c.
Qed.

Lemma prepare_buffers_slots c period (s : state) l s' :
  TestRun.prepare_buffers chan period s = Some (l, s') ->
  in_flight c (TestRun.calls s') = in_flight c (TestRun.calls s) + 2
  /\ (never_above c (in_flight c (TestRun.calls s) + 2) (TestRun.calls s) ->
      never_above c (in_flight c (TestRun.calls s) + 2) (TestRun.calls s')).
Proof.
  intros H. step_in H. reduce_goal. destruct c;
    cbn [in_flight slot_change same_channel never_above];
    (split; [lia | intros; repeat split; first [assumption | lia]]).
Qed.

(** X10.  The driver keeps two buffers with each channel.  Once the modes
    and the memory mapping are checked, a run hands each channel two
    buffers; from then on it hands a channel one buffer whenever it has
    taken one back from it, and takes it back first.  So at every point
    of a run, at whatever point it is stopped and whatever it returns,
    each channel has been handed two buffers more than were taken back
    (none more when a check failed), and it never had more than two. *)
Theorem two_buffers_in_flight c fuel period repetitions memory_map (s : state) r s' :
  TestRun.read_write chan clock fuel period repetitions memory_map s = Some (r, s') ->
  exists ok s0,
    TestRun.check_devices chan memory_map s = Some (ok, s0)
    /\ in_flight c (TestRun.calls s')
       = in_flight c (TestRun.calls s) + (if ok then 2 else 0)
    /\ (never_above c (in_flight c (TestRun.calls s) + 2) (TestRun.calls s) ->
        never_above c (in_flight c (TestRun.calls s) + 2) (TestRun.calls s')).
Proof.
  intros H. apply read_write_Some in H.
  destruct H as (started & s1 & E1 & H).
  apply startup_Some in E1. destruct E1 as (ok & s0 & E0 & E1).
  exists ok, s0. split; [exact E0|].
  assert (K0 : keeps_slots c s s0) by (step_in E0; slots_still c).
  destruct K0 as [A0 B0].
  destruct ok.
  - destruct E1 as (l & E1 & ->).
    apply (prepare_buffers_slots c) in E1. destruct E1 as [A1 B1].
    rewrite A0 in A1, B1.
    assert (K : keeps_slots c s1 s').
    { destruct H as (same & s2 & E2 & H).
      assert (K2 : keeps_slots c s1 s2) by (step_in E2; slots_still c).
      destruct same; [|destruct H as [_ ->]; exact K2].
      destruct H as (ok & s3 & E3 & H).
      assert (K3 : keeps_slots c s2 s3) by (step_in E3; slots_still c).
      pose proof (keeps_slots_trans _ _ _ _ K2 K3) as K23.
      destruct ok; [|destruct H as [_ ->]; exact K23].
      destruct H as (exit & l' & s4 & E4 & H).
      apply (read_write_loop_keeps_slots c) in E4.
      pose proof (keeps_slots_trans _ _ _ _ K23 E4) as K4.
      destruct exit as [[|]|]; destruct H as [_ ->]; try exact K4.
      apply (keeps_slots_trans _ _ _ _ K4).
      unfold unmapped, called. slots_still c. }
    destruct K as [A B]. split; [lia|].
    intros Hn. apply B; [lia|]. apply B1, B0; [lia|exact Hn].
  - destruct E1 as [-> ->]. destruct H as [_ ->].
    split; [lia|]. intros Hn. apply B0; [lia|exact Hn].
Qed.

(** *** The two frame counters *)

Ltac taken_still :=
  unfold keeps_taken; reduce_goal; intros [|];
  cbn [taken same_channel]; reflexivity.

Lemma keeps_taken_refl (s : state) : keeps_taken s s.
Proof. intros c. reflexivity. Qed.

Lemma keeps_taken_trans (s1 s2 s3 : state) :
  keeps_taken s1 s2 -> keeps_taken s2 s3 -> keeps_taken s1 s3.
Proof. intros A B c. rewrite B. apply A. Qed.

Lemma sleep_keeps_taken (s : state) ok s' :
  TestRun.sleep chan clock s = Some (ok, s') -> keeps_taken s s'.
Proof.
  apply (sleep_keeps keeps_taken keeps_taken_refl keeps_taken_trans).
  - intros s0 r s1 H. step_in H; taken_still.
  - intros s0 r s1 H. step_in H; taken_still.
  - intros s0 r s1 H. step_in H; taken_still.
Qed.

Lemma period_finished_lead c period l (s : state) l' s' :
  TestRun.period_finished chan c period l s = Some (l', s') ->
  lead period l' (TestRun.calls s') = lead period l (TestRun.calls s).
Proof.
  intros H. step_in H; try reflexivity; checked_values;
    unfold lead; reduce_goal;
    cbn [taken same_channel TestRun.set_frames TestRun.increment_finished
         TestRun.frames_of TestRun.in_frames TestRun.out_frames];
    lia.
Qed.

Lemma shift_by_gap_lead period l (s : state) l' s' :
  TestRun.shift_by_gap l s = Some (l', s') ->
  lead period l' (TestRun.calls s') = lead period l (TestRun.calls s).
Proof.
  intros H. apply shift_by_gap_Some in H.
  destruct (0 <? TestRun._gap s); destruct H as [-> ->]; [|reflexivity].
  unfold lead, shifted, gap_cleared. reduce_goal.
  cbn [taken TestRun.in_frames TestRun.out_frames]. lia.
Qed.

Lemma loop_body_lead period l (s : state) exit l' s' :
  TestRun.loop_body chan clock period l s = Some ((exit, l'), s') ->
  lead period l' (TestRun.calls s') = lead period l (TestRun.calls s).
Proof.
  intros H. unfold TestRun.loop_body in H.
  apply bind_Some in H. destruct H as (ok & s1 & E1 & H).
  assert (K1 : keeps_taken s s1) by (step_in E1; taken_still).
  assert (L1 : lead period l (TestRun.calls s1) = lead period l (TestRun.calls s))
    by (unfold lead; now rewrite !K1).
  destruct ok; cbn [negb] in H; [|injection H as _ <- <-; exact L1].
  apply bind_Some in H. destruct H as (l1 & s2 & E2 & H).
  apply (period_finished_lead ChIn) in E2.
  apply bind_Some in H. destruct H as (l2 & s3 & E3 & H).
  apply (period_finished_lead ChOut) in E3.
  apply bind_Some in H. destruct H as (ok & s4 & E4 & H).
  apply sleep_keeps_taken in E4.
  assert (L4 : lead period l2 (TestRun.calls s4) = lead period l (TestRun.calls s))
    by (unfold lead in *; rewrite !E4; lia).
  destruct ok; cbn [negb] in H; [|injection H as _ <- <-; exact L4].
  apply bind_Some in H. destruct H as (l3 & s5 & E5 & H).
  injection H as _ <- <-.
  apply (shift_by_gap_lead period) in E5. lia.
Qed.

Lemma read_write_loop_lead fuel period repetitions :
  forall l (s : state) exit l' s',
    TestRun.read_write_loop chan clock fuel period repetitions l s
    = Some ((exit, l'), s') ->
    lead period l' (TestRun.calls s') = lead period l (TestRun.calls s).
Proof.
  induction fuel as [|fuel IH]; intros l s exit l' s' H; simpl in H.
  - destruct (TestRun.finished l <? repetitions)%N;
      injection H as _ <- <-; reflexivity.
  - destruct (TestRun.finished l <? repetitions)%N;
      [|injection H as _ <- <-; reflexivity].
    apply bind_Some in H. destruct H as ([e l1] & s1 & E & H).
    apply loop_body_lead in E. cbn [fst snd] in H.
    destruct e as [b|].
    + injection H as _ <- <-. exact E.
    + apply IH in H. lia.
Qed.

(** X11.  The frame counters of the two channels stay in step.  Both
    start at two periods; a completed period adds one period to the
    counter of its channel; a gap is added to both.  So throughout the
    loop, however it ends and wherever it is stopped, the recording
    counter is ahead of the playback counter by exactly the periods that
    the recording channel has completed more: no gap and no reset moves
    the two channels against each other. *)
Theorem frame_counters_in_step :
  (forall period (s : state) l s',
      TestRun.prepare_buffers chan period s = Some (l, s') ->
      TestRun.in_frames l = 2 * Z.of_N period
      /\ TestRun.out_frames l = 2 * Z.of_N period)
  /\ (forall fuel period repetitions l (s : state) exit l' s',
         TestRun.read_write_loop chan clock fuel period repetitions l s
         = Some ((exit, l'), s') ->
         TestRun.in_frames l' - TestRun.out_frames l'
         = TestRun.in_frames l - TestRun.out_frames l
           + Z.of_N period
             * ((taken ChIn (TestRun.calls s') - taken ChIn (TestRun.calls s))
                - (taken ChOut (TestRun.calls s') - taken ChOut (TestRun.calls s)))).
Proof.
  split.
  - intros period s l s' H. step_in H. checked_values.
    cbn [TestRun.in_frames TestRun.out_frames fst snd]. lia.
  - intros fuel period repetitions l s exit l' s' H.
    apply read_write_loop_lead in H. unfold lead in H. lia.
Qed.

(** *** The thresholds of the filters *)








(** *** The order of a run *)

Lemma adds_calls_refl (s : state) : adds_calls s s.
Proof. exists []. reflexivity. Qed.

Lemma adds_calls_trans (s1 s2 s3 : state) :
  adds_calls s1 s2 -> adds_calls s2 s3 -> adds_calls s1 s3.
Proof.
  intros [a A] [b B]. exists (b ++ a). rewrite B, A. apply app_assoc.
Qed.

Lemma adds_calls_cons (e : event) (l old : list event) :
  (exists later, l = later ++ old) -> exists later, e :: l = later ++ old.
Proof. intros [a ->]. exists (e :: a). reflexivity. Qed.

Ltac calls_added :=
  unfold adds_calls; reduce_goal;
  repeat apply adds_calls_cons; exists []; reflexivity.

Lemma read_write_loop_adds_calls fuel period repetitions l (s : state) r s' :
  TestRun.read_write_loop chan clock fuel period repetitions l s = Some (r, s') ->
  adds_calls s s'.
Proof.
  apply (read_write_loop_keeps adds_calls adds_calls_refl adds_calls_trans).
  apply (loop_body_keeps adds_calls adds_calls_refl adds_calls_trans).
  - intros s0 ok s1 H. step_in H; calls_added.
  - intros c p l0 s0 l1 s1 H. step_in H; calls_added.
  - apply (sleep_keeps adds_calls adds_calls_refl adds_calls_trans).
    + intros s0 ok s1 H. step_in H; calls_added.
    + intros s0 ok s1 H. step_in H; calls_added.
    + intros s0 ok s1 H. step_in H; calls_added.
  - intros l0 s0 l1 s1 H. step_in H; calls_added.
Qed.

Lemma not_running_refl (s : state) : not_running s s.
Proof. exists []. split; reflexivity. Qed.

Lemma not_running_trans (s1 s2 s3 : state) :
  not_running s1 s2 -> not_running s2 s3 -> not_running s1 s3.
Proof.
  intros (a & A & Fa) (b & B & Fb). exists (b ++ a).
  rewrite B, A, filter_app, Fa, Fb. split; [apply app_assoc|reflexivity].
Qed.

Lemma not_running_cons (e : event) (l old : list event) :
  is_running_call e = false ->
  (exists added, l = added ++ old /\ filter is_running_call added = []) ->
  exists added, e :: l = added ++ old /\ filter is_running_call added = [].
Proof.
  intros He (a & -> & Fa). exists (e :: a). cbn [filter app].
  rewrite He. auto.
Qed.

Ltac none_running :=
  unfold not_running; reduce_goal;
  repeat (apply not_running_cons; [reflexivity|]);
  exists []; split; reflexivity.

Lemma startup_not_running period memory_map (s : state) started s1 :
  TestRun.startup chan period memory_map s = Some (started, s1) ->
  not_running s s1.
Proof.
  intros H. apply startup_Some in H. destruct H as (ok & s0 & E0 & H).
  assert (K0 : not_running s s0) by (step_in E0; none_running).
  destruct ok.
  - destruct H as (l & E1 & _).
    apply (not_running_trans _ _ _ K0). step_in E1; none_running.
  - destruct H as [_ ->]. exact K0.
Qed.

(** X13.  The order of a run.  Nothing that belongs to a started stream
    (processing a channel, taking back or resetting its buffers, asking
    the clock for the time or to sleep) happens before the stream is
    started: either a run makes no such call at all, or all of them come
    after the calls that join the recording and then the playback
    channel to the sync group, start the group on the recording channel
    and initialise the clock. *)
Theorem runs_after_start fuel period repetitions memory_map (s : state) r s' :
  TestRun.read_write chan clock fuel period repetitions memory_map s = Some (r, s') ->
  not_running s s'
  \/ exists later rate before,
       TestRun.calls s'
       = later
         ++ InitClock rate :: StartSyncGroup ChIn 0
            :: AddToSyncGroup ChOut 0 :: AddToSyncGroup ChIn 0
            :: before ++ TestRun.calls s
       /\ filter is_running_call before = [].
Proof.
  intros H. apply read_write_Some in H.
  destruct H as (started & s1 & E1 & H).
  apply startup_not_running in E1.
  destruct started as [l|]; [|destruct H as [_ ->]; left; exact E1].
  destruct H as (same & s2 & E2 & H).
  assert (K2 : not_running s s2).
  { apply (not_running_trans _ _ _ E1). step_in E2; none_running. }
  destruct same; [|destruct H as [_ ->]; left; exact K2].
  destruct H as (ok & s3 & E3 & H).
  destruct ok.
  - destruct H as (exit & l' & s4 & E4 & H).
    apply read_write_loop_adds_calls in E4. destruct E4 as [later E4].
    assert (K3 : exists rate,
               TestRun.calls s3
               = InitClock rate :: StartSyncGroup ChIn 0
                 :: AddToSyncGroup ChOut 0 :: AddToSyncGroup ChIn 0
                 :: TestRun.calls s2)
      by (step_in E3; reduce_goal; eexists; reflexivity).
    destruct K3 as [rate K3]. destruct K2 as (before & K2 & F2).
    right.
    assert (S4 : exists last, TestRun.calls s' = last ++ TestRun.calls s4).
    { destruct exit as [[|]|]; destruct H as [_ ->];
        try (exists []; reflexivity).
      exists [MemoryUnmap ChOut; MemoryUnmap ChIn]. reflexivity. }
    destruct S4 as [last S4].
    exists (last ++ later), rate, before. split; [|exact F2].
    rewrite S4, E4, K3, K2, <- app_assoc. reflexivity.
  - destruct H as [_ ->]. left.
    apply (not_running_trans _ _ _ K2). step_in E3; none_running.
Qed.

(** *** No repetitions *)



End DriverFacts.

(** ** Runs on the ideal device *)

Section IdealRuns.

Let chan := Ideal.channels.
Let clock := Ideal.frame_clock.

Lemma sleep_adds_simulated_delay_witness :
  TestRun.sleep_until_wakeup chan clock Ideal.block7
  = Some (true, Ideal.block7_slept)
  /\ TestRun.calls Ideal.block7_slept
     = [ClockSleep (8192 + 8 * 1024); Warn "Simulate late wakeup by %lld."]
  /\ TestRun._sync_frames Ideal.block7_slept = 8192.
Proof.
  assert (H : TestRun.sleep_until_wakeup chan clock Ideal.block7
              = Some (true, Ideal.block7_slept))
    by (vm_compute; reflexivity).
  split; [exact H|].
  destruct (sleep_adds_simulated_delay chan clock Ideal.block7
              Ideal.block7_slept true) as (A & _ & C).
  - vm_compute. discriminate.
  - vm_compute. reflexivity.
  - exact H.
  - split; [exact A | exact C].
Defined.

Lemma gap_resets_buffers_witness :
  (exists s1,
      TestRun.sleep_to_now chan clock Ideal.block7 = Some (true, s1)
      /\ TestRun.sleep_gap chan s1 = Some (tt, Ideal.block7_awake)
      /\ TestRun._gap Ideal.block7_awake = 7168
      /\ TestRun.calls Ideal.block7_awake
         = ResetBuffers ChOut 16384 :: ResetBuffers ChIn 16384
           :: TestRun.calls s1)
  /\ TestRun._gap Ideal.block7_passed = 0
  /\ TestRun.in_frames Ideal.block7_locals_passed
     = TestRun.in_frames Ideal.block7_locals + 7168
  /\ TestRun.out_frames Ideal.block7_locals_passed
     = TestRun.out_frames Ideal.block7_locals + 7168.
Proof.
  split.
  - destruct (proj1 (gap_resets_buffers chan clock)
                Ideal.block7 Ideal.block7_awake) as (s1 & E1 & E2 & G).
    + vm_compute. reflexivity.
    + exists s1. split; [exact E1|]. split; [exact E2|].
      assert (S1 : s1 = Ideal.after (TestRun.sleep_to_now chan clock) Ideal.block7)
        by (unfold Ideal.after; rewrite E1; reflexivity).
      rewrite S1 in G |- *.
      split; [exact (proj1 G) | exact (proj1 (proj2 G))].
  - destruct (proj2 (gap_resets_buffers chan clock)
                1024%N Ideal.block7_locals Ideal.block7
                Ideal.block7_locals_passed
                Ideal.block7_passed)
      as (s1 & l1 & s2 & l2 & s3 & s4 & E1 & E2 & E3 & E4 & G).
    + vm_compute. reflexivity.
    + vm_compute in E1. injection E1 as <-.
      vm_compute in E2. injection E2 as <- <-.
      vm_compute in E3. injection E3 as <- <-.
      vm_compute in E4. injection E4 as <-.
      vm_compute in G. destruct G as (A & B & C & _).
      split; [|split]; vm_compute; [exact C | exact A | exact B].
Defined.

Lemma sync_frames_never_decrease_witness :
  TestRun.read_write chan clock 100 1024 16 true (TestRun.create Ideal.duplex_48k)
  = Some (Some true, Ideal.ran 16)
  /\ TestRun._sync_frames Ideal.block7 <= TestRun._sync_frames Ideal.block7_awake
  /\ StronglySorted Z.ge
       (TestRun._sync_frames (Ideal.ran 16)
        :: observed (TestRun.calls (Ideal.ran 16)) ++ [0]).
Proof.
  assert (H : TestRun.read_write chan clock 100 1024 16 true
                (TestRun.create Ideal.duplex_48k)
              = Some (Some true, Ideal.ran 16))
    by (vm_compute; reflexivity).
  split; [exact H|]. split.
  - apply (proj1 (proj2 (sync_frames_never_decrease chan clock))
             Ideal.block7 true Ideal.block7_awake).
    vm_compute. reflexivity.
  - exact (proj1 (proj2 (proj2 (proj2 (sync_frames_never_decrease chan clock))))
             100%nat 1024%N 16%N true Ideal.duplex_48k (Some true)
             (Ideal.ran 16) H).
Defined.

Lemma loop_ends_past_repetitions_witness :
  exists k,
    completions (TestRun.calls (Ideal.ran 4))
    = (completions (TestRun.calls (TestRun.create Ideal.duplex_48k)) + k)%N
    /\ (4 <= UInt32.wrap k <= 4 + 1)%N.
Proof.
  apply (proj2 (loop_ends_past_repetitions chan clock)
           100%nat 1024%N 4%N true (TestRun.create Ideal.duplex_48k)).
  vm_compute. reflexivity.
Defined.

(** C5, as stated, fails: with [repetitions = 1] both channels of the
    ideal device complete their first period in the same pass, and the
    loop ends after two completions, not one. *)
Lemma loop_ends_after_two_of_one :
  Ideal.read_write 100 1024 1 true (TestRun.create Ideal.duplex_48k)
  = Some (Some true, Ideal.ran 1)
  /\ completions (TestRun.calls (Ideal.ran 1)) = 2%N
  /\ completions (TestRun.calls (Ideal.ran 1)) <> 1%N.
Proof.
  split; [vm_compute; reflexivity|].
  split; [vm_compute; reflexivity|].
  vm_compute. discriminate.
Qed.

Lemma rate_mismatch_returns_false_witness :
  exists started s1,
    TestRun.startup chan 1024 true (TestRun.create Ideal.mismatched_rates)
    = Some (started, s1)
    /\ match started with
       | None =>
           TestRun.read_write chan clock 100 1024 3 true
                              (TestRun.create Ideal.mismatched_rates)
           = Some (Some false, s1)
           /\ enqueued (TestRun.calls s1)
              = enqueued (TestRun.calls (TestRun.create Ideal.mismatched_rates))
       | Some l =>
           (exists in_buffer out_buffer,
               enqueued (TestRun.calls s1)
               = [SetBuffer ChOut out_buffer (Z.of_N 1024 + Z.of_N 1024);
                  SetBuffer ChOut out_buffer (Z.of_N 1024);
                  SetBuffer ChIn in_buffer (Z.of_N 1024 + Z.of_N 1024);
                  SetBuffer ChIn in_buffer (Z.of_N 1024)]
                 ++ enqueued (TestRun.calls (TestRun.create Ideal.mismatched_rates)))
           /\ (Channel.sample_rate chan ChIn (TestRun.world s1)
               <> Channel.sample_rate chan ChOut (TestRun.world s1) ->
               TestRun.read_write chan clock 100 1024 3 true
                                  (TestRun.create Ideal.mismatched_rates)
               = Some (Some false,
                       called (Warn "Recording sample rate %u vs playback %u.")
                              (TestRun.world s1) s1))
       end.
Proof.
  apply (rate_mismatch_returns_false chan clock 100 1024 3 true
           (TestRun.create Ideal.mismatched_rates)).
  reflexivity.
Defined.

(** C1, as stated, fails: recording at 44.1 kHz and playing at 48 kHz,
    [read_write] returns false, but by then two buffers have been
    enqueued on each channel, and the channels hold them. *)
Lemma rate_mismatch_after_enqueue :
  option_map
    (fun r => (fst r,
               enqueued (TestRun.calls (snd r)),
               Ideal.slots (Ideal.reader (TestRun.world (snd r))),
               Ideal.slots (Ideal.writer (TestRun.world (snd r)))))
    (Ideal.read_write 100 1024 3 false (TestRun.create Ideal.mismatched_rates))
  = Some (Some false,
          [SetBuffer ChOut (mkBuffer 4096) 2048;
           SetBuffer ChOut (mkBuffer 4096) 1024;
           SetBuffer ChIn (mkBuffer 4096) 2048;
           SetBuffer ChIn (mkBuffer 4096) 1024],
          [(mkBuffer 4096, 1024); (mkBuffer 4096, 2048)],
          [(mkBuffer 4096, 1024); (mkBuffer 4096, 2048)]).
Proof. vm_compute. reflexivity. Qed.

Lemma memory_map_unsupported_continues_witness :
  TestRun.read_write chan clock 100 1024 4 true (TestRun.create Ideal.unmappable)
  = TestRun.read_write chan clock 100 1024 4 false (TestRun.create Ideal.unmappable)
  /\ TestRun.memory_map_failed chan true ChIn (TestRun.create Ideal.unmappable)
     = Some (false, TestRun.create Ideal.unmappable).
Proof.
  split.
  - apply (proj2 (proj2 (proj2 (memory_map_unsupported_continues chan clock)))
             100%nat 1024%N 4%N (TestRun.create Ideal.unmappable));
      reflexivity.
  - apply (proj1 (memory_map_unsupported_continues chan clock)
             ChIn (TestRun.create Ideal.unmappable)).
    reflexivity.
Defined.



Lemma ran_16 :
  TestRun.read_write chan clock 100 1024 16 true (TestRun.create Ideal.duplex_48k)
  = Some (Some true, Ideal.ran 16).
Proof. vm_compute. reflexivity. Defined.

Lemma wrong_mode_returns_false_witness :
  TestRun.read_write chan clock 100 1024 4 true
                     (TestRun.create Ideal.playback_only)
  = Some (Some false,
          called (Warn "In device not in recording mode.")
                 Ideal.playback_only (TestRun.create Ideal.playback_only))
  /\ TestRun.read_write chan clock 100 1024 4 true
                        (TestRun.create Ideal.recording_only)
     = Some (Some false,
             called (Warn "Out device not in playback mode.")
                    Ideal.recording_only (TestRun.create Ideal.recording_only)).
Proof.
  split.
  - apply (proj1 (wrong_mode_returns_false chan clock 100 1024 4 true
                    (TestRun.create Ideal.playback_only))).
    reflexivity.
  - apply (proj2 (wrong_mode_returns_false chan clock 100 1024 4 true
                    (TestRun.create Ideal.recording_only)));
      reflexivity.
Defined.

Lemma late_wakeup_rounded_to_steps_witness :
  TestRun._sync_frames Ideal.block7_slept = 8192
  /\ snd (fst (FrameClock.now clock (TestRun.world Ideal.block7_slept))) = 16384
  /\ TestRun._sync_frames Ideal.block7_checked = 16384
  /\ exists k,
       0 <= k
       /\ TestRun._sync_frames Ideal.block7_checked
          = TestRun._sync_frames Ideal.block7_slept
            + k * Z.of_N (Channel.stepping chan ChIn
                            (snd (FrameClock.now clock
                                    (TestRun.world Ideal.block7_slept)))).
Proof.
  split; [reflexivity|]. split; [reflexivity|]. split; [reflexivity|].
  assert (H : TestRun.sleep_check_wakeup chan clock Ideal.block7_slept
              = Some (true, Ideal.block7_checked))
    by (vm_compute; reflexivity).
  exact (proj1 (late_wakeup_rounded_to_steps chan clock Ideal.block7_slept
                  Ideal.block7_checked H)).
Defined.

Lemma sleep_reaches_wakeup_witness :
  next_wakeup chan Ideal.block7 = 8192
  /\ Z.max (TestRun._sync_frames Ideal.block7) (next_wakeup chan Ideal.block7)
     <= TestRun._sync_frames Ideal.block7_awake.
Proof.
  split; [reflexivity|].
  assert (H : TestRun.sleep chan clock Ideal.block7
              = Some (true, Ideal.block7_awake))
    by (vm_compute; reflexivity).
  exact (proj1 (sleep_reaches_wakeup chan clock Ideal.block7)
           Ideal.block7_awake H).
Defined.

Lemma gap_is_transient_witness :
  (TestRun._gap Ideal.block7_awake = 0 \/ 1024 < TestRun._gap Ideal.block7_awake)
  /\ TestRun._gap (Ideal.ran 16) = 0.
Proof.
  split.
  - assert (H : TestRun.sleep chan clock Ideal.block7
                = Some (true, Ideal.block7_awake))
      by (vm_compute; reflexivity).
    exact (proj1 (gap_is_transient chan clock)
             Ideal.block7 Ideal.block7_awake H).
  - exact (proj2 (proj2 (gap_is_transient chan clock))
             100%nat 1024%N 16%N true (TestRun.create Ideal.duplex_48k)
             (Some true) (Ideal.ran 16) eq_refl ran_16).
Defined.

Lemma unmaps_on_success_only_witness :
  exists s4,
    Ideal.ran 16 = unmapped chan s4
    /\ TestRun.calls (Ideal.ran 16)
       = MemoryUnmap ChOut :: MemoryUnmap ChIn :: TestRun.calls s4
    /\ teardown (TestRun.calls s4)
       = teardown (TestRun.calls (TestRun.create Ideal.duplex_48k)).
Proof.
  exact (unmaps_on_success_only chan clock 100 1024 16 true
           (TestRun.create Ideal.duplex_48k) (Some true) (Ideal.ran 16) ran_16).
Defined.

Lemma two_buffers_in_flight_witness :
  exists ok s0,
    TestRun.check_devices chan true (TestRun.create Ideal.duplex_48k)
    = Some (ok, s0)
    /\ in_flight ChIn (TestRun.calls (Ideal.ran 16))
       = in_flight ChIn (TestRun.calls (TestRun.create Ideal.duplex_48k))
         + (if ok then 2 else 0)
    /\ (never_above ChIn
          (in_flight ChIn (TestRun.calls (TestRun.create Ideal.duplex_48k)) + 2)
          (TestRun.calls (TestRun.create Ideal.duplex_48k)) ->
        never_above ChIn
          (in_flight ChIn (TestRun.calls (TestRun.create Ideal.duplex_48k)) + 2)
          (TestRun.calls (Ideal.ran 16))).
Proof.
  exact (two_buffers_in_flight chan clock ChIn 100 1024 16 true
           (TestRun.create Ideal.duplex_48k) (Some true) (Ideal.ran 16) ran_16).
Defined.

Lemma frame_counters_in_step_witness :
  match TestRun.read_write_loop chan clock 100 1024 14
                                Ideal.block7_locals Ideal.block7 with
  | Some ((exit, l'), s') =>
      TestRun.in_frames l' - TestRun.out_frames l'
      = TestRun.in_frames Ideal.block7_locals
        - TestRun.out_frames Ideal.block7_locals
        + Z.of_N 1024
          * ((taken ChIn (TestRun.calls s')
              - taken ChIn (TestRun.calls Ideal.block7))
             - (taken ChOut (TestRun.calls s')
                - taken ChOut (TestRun.calls Ideal.block7)))
  | None => False
  end.
Proof.
  destruct (TestRun.read_write_loop chan clock 100 1024 14
              Ideal.block7_locals Ideal.block7)
    as [[[exit l'] s']|] eqn:E.
  - exact (proj2 (frame_counters_in_step chan clock)
             100%nat 1024%N 14%N Ideal.block7_locals Ideal.block7
             exit l' s' E).
  - vm_compute in E. discriminate E.
Defined.


Lemma runs_after_start_witness :
  not_running (TestRun.create Ideal.duplex_48k) (Ideal.ran 16)
  \/ exists later rate before,
       TestRun.calls (Ideal.ran 16)
       = later
         ++ InitClock rate :: StartSyncGroup ChIn 0
            :: AddToSyncGroup ChOut 0 :: AddToSyncGroup ChIn 0
            :: before ++ TestRun.calls (TestRun.create Ideal.duplex_48k)
       /\ filter is_running_call before = [].
Proof.
  exact (runs_after_start chan clock 100 1024 16 true
           (TestRun.create Ideal.duplex_48k) (Some true) (Ideal.ran 16) ran_16).
Defined.


End IdealRuns.
